(** * Monty Hall simulator (simulator.cpp): shallow embedding and properties

    The C++ program is embedded as follows.
    - [int] values are [Z]: signed overflow is undefined behaviour
      ([int_add]) and the narrowing of a [size_t] wraps ([to_int]);
      [size_t] subtraction wraps ([size_sub]).  [double] is IEEE binary64
      as specified by [SpecFloat].
    - [std::vector<DoorState>] is [list DoorState]; [operator[]] outside
      the vector is undefined behaviour and is kept as the leaf [Undef].
    - The methods of [Simulator] draw from [std::mt19937 gen], write to
      [std::cout] and may throw.  They are written once, statement by
      statement, in the monad [Sim] of programs over these effects, and
      read three ways: by [run], which threads an arbitrary random source;
      by [outcomes], which lists the executions for every answer to the
      draws; and by [expect], which averages over the draws of
      [std::uniform_int_distribution].
    - Two kinds of ghost events are added to what an execution leaves
      behind, to state properties of the local variables of a trial: the
      board after each of its four transitions ([BoardAt]) and the value
      of each draw ([Drawn]).  They have no effect on the results. *)

From Stdlib Require Import ZArith List String Ascii Bool Lia QArith Qabs Qround Sorted Lqa.
From Stdlib Require Import SpecFloat.
From Equations Require Import Equations.
Import ListNotations.

Local Open Scope string_scope.
Local Open Scope list_scope.
Local Open Scope Z_scope.

(* ===================================================================== *)
(** * Machine integers *)
(* ===================================================================== *)

Definition INT_MIN : Z := - 2 ^ 31.
Definition INT_MAX : Z := 2 ^ 31 - 1.

(** Conversion to the 32-bit [int] (two's complement wrap-around). *)
Definition to_int (z : Z) : Z := (z + 2 ^ 31) mod 2 ^ 32 - 2 ^ 31.

(** [a - b] on [size_t] (64-bit, unsigned). *)
Definition size_sub (a b : Z) : Z := (a - b) mod 2 ^ 64.

(** [std::vector::size()]. *)
Definition size {A : Type} (v : list A) : Z := Z.of_nat (List.length v).

(** [bool] promoted to [int], as in [winCount += simulateSingleGame(..)]. *)
Definition int_of_bool (b : bool) : Z := if b then 1 else 0.

(* ===================================================================== *)
(** * Doubles *)
(* ===================================================================== *)

(** IEEE 754 binary64, as specified by [SpecFloat] with 53 bits of
    precision and maximal exponent 1024. *)
Definition double : Type := spec_float.

Definition double_prec : Z := 53.
Definition double_emax : Z := 1024.

(** [static_cast<double>(z)] for an [int] [z], and the implicit conversion
    of the divisor in [double / int]: round to nearest even (exact for
    every [int]). *)
Definition double_of_int (z : Z) : double :=
  binary_normalize double_prec double_emax z 0 false.

(** [x / y] on [double]. *)
Definition double_div (x y : double) : double :=
  SFdiv double_prec double_emax x y.

(** The doubles 0.0 and 1.0. *)
Definition double_zero : double := S754_zero false.
Definition double_one : double := S754_finite false 4503599627370496 (-52).

(* ===================================================================== *)
(** * Data model *)
(* ===================================================================== *)

(** [struct DoorState]. *)
Record DoorState : Type := mkDoorState {
  selected : bool;
  hasCar : bool;
  open : bool
}.

(** The default member initialisers: all flags false. *)
Definition defaultDoorState : DoorState := mkDoorState false false false.

Definition set_selected (v : bool) (d : DoorState) : DoorState :=
  mkDoorState v (hasCar d) (open d).
Definition set_hasCar (v : bool) (d : DoorState) : DoorState :=
  mkDoorState (selected d) v (open d).
Definition set_open (v : bool) (d : DoorState) : DoorState :=
  mkDoorState (selected d) (hasCar d) v.

Definition Board : Type := list DoorState.

(** [enum class LogLevel], with the order of its enumerators. *)
Inductive LogLevel : Type := DEBUG | INFO | WARN.

Definition LogLevel_rank (l : LogLevel) : Z :=
  match l with DEBUG => 0 | INFO => 1 | WARN => 2 end.

(** [class Logger]: its only field. *)
Record Logger : Type := mkLogger { logLevel : LogLevel }.

(** The exceptions the program throws, with their [what()]. *)
Inductive exn : Type :=
| invalid_argument (what : string)
| out_of_range (what : string).

Definition what_of (e : exn) : string :=
  match e with invalid_argument w => w | out_of_range w => w end.

(** A call of [std::format]: the format string and its arguments.  The
    rendering of numbers is the library's and is not modelled. *)
Inductive FormatArg : Type :=
| ArgInt (z : Z)
| ArgDouble (x : double).

Inductive Message : Type :=
| Text (s : string)
| Format (fmt : string) (args : list FormatArg).

(** The four transitions of a trial's board. *)
Inductive Phase : Type :=
| PrizeAssigned
| InitialSelected
| Revealed
| Reselected.

(** What an execution leaves behind: lines on [std::cout] and [std::cerr],
    and, as ghost observations, the board after each transition and the
    value of each draw from the random source. *)
Inductive Event : Type :=
| Stdout (line : Message)
| Stderr (line : Message)
| BoardAt (phase : Phase) (board : Board)
| Drawn (max value : Z).

(* ===================================================================== *)
(** * The monad of simulator programs *)
(* ===================================================================== *)

Inductive Sim (A : Type) : Type :=
| Ret (a : A)
| Throw (e : exn)
| Undef
| GetRandom (max : Z) (k : Z -> Sim A)
| Emit (ev : Event) (k : Sim A).

Arguments Ret {A} a.
Arguments Throw {A} e.
Arguments Undef {A}.
Arguments GetRandom {A} max k.
Arguments Emit {A} ev k.

Fixpoint bind {A B : Type} (p : Sim A) (f : A -> Sim B) : Sim B :=
  match p with
  | Ret a => f a
  | Throw e => Throw e
  | Undef => Undef
  | GetRandom max k => GetRandom max (fun r => bind (k r) f)
  | Emit ev k => Emit ev (bind k f)
  end.

Declare Scope sim_scope.
Delimit Scope sim_scope with sim.
Bind Scope sim_scope with Sim.

Notation "x <- c ;; k" := (bind c (fun x => k))
  (at level 61, c at next level, right associativity) : sim_scope.
Notation "' pat <- c ;; k" := (bind c (fun x => match x with pat => k end))
  (at level 61, pat pattern, c at next level, right associativity) : sim_scope.
Notation "c ;; k" := (bind c (fun _ => k))
  (at level 61, right associativity) : sim_scope.

Local Open Scope sim_scope.

(** How an execution ends: a value, an exception in flight, or undefined
    behaviour. *)
Inductive Result (A : Type) : Type :=
| Ok (a : A)
| Exn (e : exn)
| UB.

Arguments Ok {A} a.
Arguments Exn {A} e.
Arguments UB {A}.

(** [emit ev]: one observation. *)
Definition emit (ev : Event) : Sim unit := Emit ev (Ret tt).

(** [v[i]] read and [v[i] = f(v[i])] written through [operator[]]; an index
    outside the vector is undefined behaviour. *)
Definition at_index {A : Type} (v : list A) (i : Z) : Sim A :=
  if (0 <=? i) && (i <? size v) then
    match nth_error v (Z.to_nat i) with
    | Some x => Ret x
    | None => Undef
    end
  else Undef.

Fixpoint update_nth {A : Type} (v : list A) (n : nat) (f : A -> A) : list A :=
  match v, n with
  | [], _ => []
  | x :: rest, O => f x :: rest
  | x :: rest, S n' => x :: update_nth rest n' f
  end.

Definition assign_at {A : Type} (v : list A) (i : Z) (f : A -> A) : Sim (list A) :=
  if (0 <=? i) && (i <? size v) then Ret (update_nth v (Z.to_nat i) f)
  else Undef.

(** [a + b] on [int]: signed overflow is undefined behaviour. *)
Definition int_add (a b : Z) : Sim Z :=
  if (INT_MIN <=? a + b) && (a + b <=? INT_MAX) then Ret (a + b) else Undef.

(** [try { p } catch (const std::exception& e) { h e }]. *)
Fixpoint try_catch {A : Type} (p : Sim A) (h : exn -> Sim A) : Sim A :=
  match p with
  | Ret a => Ret a
  | Throw e => h e
  | Undef => Undef
  | GetRandom max k => GetRandom max (fun r => try_catch (k r) h)
  | Emit ev k => Emit ev (try_catch k h)
  end.

(* ===================================================================== *)
(** * The program *)
(* ===================================================================== *)

(** ** class Logger *)

(** [Logger::log]: the message goes to [std::cout] when
    [level >= logLevel]. *)
Definition Logger_log (logger : Logger) (message : Message) (level : LogLevel)
  : Sim unit :=
  if LogLevel_rank (logLevel logger) <=? LogLevel_rank level
  then emit (Stdout message)
  else Ret tt.

Definition Logger_debug (logger : Logger) (message : Message) : Sim unit :=
  Logger_log logger message DEBUG.

Definition Logger_info (logger : Logger) (message : Message) : Sim unit :=
  Logger_log logger message INFO.

(** ** class Simulator *)

Definition DOORS_NUMBER : Z := 3.

(** The two lambdas passed to [chooseRandomIndex]. *)
Definition revealCondition (door : DoorState) : bool :=
  negb (selected door) && negb (hasCar door).

Definition switchCondition (door : DoorState) : bool :=
  negb (selected door) && negb (open door).

(** The loop of [chooseRandomIndex]: [i] runs over the indices of the
    doors still to visit; [push_back(i)] narrows [size_t] to [int]. *)
Fixpoint collectIndices (condition : DoorState -> bool) (board : Board) (i : Z)
  : list Z :=
  match board with
  | [] => []
  | door :: rest =>
      if condition door
      then to_int i :: collectIndices condition rest (i + 1)
      else collectIndices condition rest (i + 1)
  end.

(** One door as [printBoard] shows it. *)
Definition doorDisplay (door : DoorState) : string :=
  let symbol := if hasCar door then "C" else if open door then " " else "X" in
  let left := if selected door then "{" else "[" in
  let right := if selected door then "}" else "]" in
  (left ++ symbol ++ right ++ " ")%string.

Section Simulator.

(** The field [logger]; the field [gen] is the random source that [run]
    threads and over which [expect] averages. *)
Variable logger : Logger.

Definition printBoard (board : Board) : Sim unit :=
  let displayValue :=
    fold_left (fun acc door => (acc ++ doorDisplay door)%string) board "" in
  Logger_debug logger (Text displayValue).

(** [getRandom(max)]: one draw of [uniform_int_distribution<int>(0, max)]
    from [gen]. *)
Definition getRandom (max : Z) : Sim Z :=
  GetRandom max (fun r => Ret r).

Definition chooseRandomIndex (board : Board) (condition : DoorState -> bool)
  : Sim Z :=
  let indices := collectIndices condition board 0 in
  match indices with
  | [] => Throw (invalid_argument "No suitable indices available")
  | _ :: _ =>
      r <- getRandom (to_int (size_sub (size indices) 1)) ;;
      at_index indices r
  end.

Definition simulateSingleGame (changePlayerDecision : bool) : Sim bool :=
  let board := repeat defaultDoorState (Z.to_nat DOORS_NUMBER) in
  carIndex <- getRandom (to_int (size_sub (size board) 1)) ;;
  board <- assign_at board carIndex (set_hasCar true) ;;
  emit (BoardAt PrizeAssigned board) ;;
  carDoor <- int_add carIndex 1 ;;
  Logger_debug logger (Format "Car is at door {}" [ArgInt carDoor]) ;;
  playerChoiceIndex <- getRandom (to_int (size_sub (size board) 1)) ;;
  board <- assign_at board playerChoiceIndex (set_selected true) ;;
  emit (BoardAt InitialSelected board) ;;
  playerDoor <- int_add playerChoiceIndex 1 ;;
  Logger_debug logger (Format "Player chooses door {}" [ArgInt playerDoor]) ;;
  Logger_debug logger (Text "Initial board:") ;;
  printBoard board ;;
  openedDoorIndex <- chooseRandomIndex board revealCondition ;;
  board <- assign_at board openedDoorIndex (set_open true) ;;
  emit (BoardAt Revealed board) ;;
  openedDoor <- int_add openedDoorIndex 1 ;;
  Logger_debug logger (Format "Doors {} opened" [ArgInt openedDoor]) ;;
  Logger_debug logger (Text "Current board:") ;;
  printBoard board ;;
  '(board, playerChoiceIndex) <-
    (if changePlayerDecision then
       newChoiceIndex <- chooseRandomIndex board switchCondition ;;
       newDoor <- int_add newChoiceIndex 1 ;;
       Logger_debug logger
         (Format "Player changes choice to door {}" [ArgInt newDoor]) ;;
       board <- assign_at board playerChoiceIndex (set_selected false) ;;
       board <- assign_at board newChoiceIndex (set_selected true) ;;
       emit (BoardAt Reselected board) ;;
       Logger_debug logger (Text "Board after player changes choice:") ;;
       printBoard board ;;
       Ret (board, newChoiceIndex)
     else Ret (board, playerChoiceIndex)) ;;
  finalDoor <- at_index board playerChoiceIndex ;;
  Ret (hasCar finalDoor).

(** The [for] loop of [runSimulation], from the state [(i, winCount)];
    it returns the final [winCount]. *)
Equations runSimulation_loop (simulationsNumber : Z)
  (changePlayerDecision : bool) (i winCount : Z) : Sim Z
  by wf (Z.to_nat (simulationsNumber - i)) lt :=
runSimulation_loop simulationsNumber changePlayerDecision i winCount
  with Z_lt_dec i simulationsNumber := {
  | left _ =>
      won <- simulateSingleGame changePlayerDecision ;;
      winCount' <- int_add winCount (int_of_bool won) ;;
      if i + 1 <=? INT_MAX
      then runSimulation_loop simulationsNumber changePlayerDecision
             (i + 1) winCount'
      else Undef
  | right _ => Ret winCount }.
Next Obligation. apply Z2Nat.inj_lt; lia. Defined.

Definition runSimulation (simulationsNumber : Z) (changePlayerDecision : bool)
  : Sim unit :=
  winCount <- runSimulation_loop simulationsNumber changePlayerDecision 0 0 ;;
  let winRatio :=
    double_div (double_of_int winCount) (double_of_int simulationsNumber) in
  Logger_info logger
    (Format "Simulations: {}, Wins: {}, Win Ratio: {:.2f}"
       [ArgInt simulationsNumber; ArgInt winCount; ArgDouble winRatio]).

Definition simulate (simulationsNumber : Z) : Sim unit :=
  Logger_info logger
    (Text "Running simulation where the player does not change the door:") ;;
  runSimulation simulationsNumber false ;;
  Logger_info logger
    (Text "Running simulation where the player changes the door:") ;;
  runSimulation simulationsNumber true.

End Simulator.

(** ** Command line *)

(** [std::isspace] in the "C" locale. *)
Definition isspace (c : ascii) : bool :=
  let n := Z.of_N (N_of_ascii c) in
  (n =? 32) || ((9 <=? n) && (n <=? 13)).

Definition digit_value (c : ascii) : option Z :=
  let n := Z.of_N (N_of_ascii c) in
  if (48 <=? n) && (n <=? 57) then Some (n - 48) else None.

Fixpoint skip_spaces (s : string) : string :=
  match s with
  | String c rest => if isspace c then skip_spaces rest else s
  | EmptyString => s
  end.

(** The value of the longest prefix of decimal digits, from [acc]. *)
Fixpoint read_digits (s : string) (acc : Z) : Z :=
  match s with
  | String c rest =>
      match digit_value c with
      | Some d => read_digits rest (10 * acc + d)
      | None => acc
      end
  | EmptyString => acc
  end.

Definition starts_with_digit (s : string) : bool :=
  match s with
  | String c _ => match digit_value c with Some _ => true | None => false end
  | EmptyString => false
  end.

(** [std::stoi(str)] of the C++ standard library, which is [strtol] in base
    10 with its result checked: leading white space is skipped, an optional
    sign and the longest run of decimal digits are read, and what follows
    the digits is ignored.  No digit at all throws [std::invalid_argument];
    a value outside [int] throws [std::out_of_range].  The text of
    [what()] is the library's; it is "stoi" in libstdc++. *)
Definition stoi (str : string) : Sim Z :=
  let s := skip_spaces str in
  let '(negative, s) :=
    match s with
    | String "-"%char rest => (true, rest)
    | String "+"%char rest => (false, rest)
    | _ => (false, s)
    end in
  if starts_with_digit s then
    let magnitude := read_digits s 0 in
    let value := if negative then - magnitude else magnitude in
    if (INT_MIN <=? value) && (value <=? INT_MAX)
    then Ret value
    else Throw (out_of_range "stoi")
  else Throw (invalid_argument "stoi").

(** The loop of [parseArguments] over [argv[i..argc-1]], here [args]; the
    test [i + 1 < argc] is that one more token follows. *)
Fixpoint parseArguments_loop (args : list string) (simulations : Z)
  (level : LogLevel) : Sim (Z * LogLevel) :=
  match args with
  | [] => Ret (simulations, level)
  | arg :: rest =>
      match String.eqb arg "--simulations", rest with
      | true, value :: rest' =>
          simulations <- stoi value ;;
          parseArguments_loop rest' simulations level
      | _, _ =>
          if String.eqb arg "--verbose"
          then parseArguments_loop rest simulations DEBUG
          else Throw (invalid_argument ("Invalid argument: " ++ arg)%string)
      end
  end.

(** [parseArguments]: [argv[0]] is skipped. *)
Definition parseArguments (argv : list string) : Sim (Z * LogLevel) :=
  parseArguments_loop (tl argv) 10000 INFO.

Definition EXIT_SUCCESS : Z := 0.
Definition EXIT_FAILURE : Z := 1.

(** [main].  The seeding of [gen] from [std::random_device] is the choice
    of the random source handed to [run]. *)
Definition main (argv : list string) : Sim Z :=
  try_catch
    ('(simulations, level) <- parseArguments argv ;;
     let logger := mkLogger level in
     simulate logger simulations ;;
     Ret EXIT_SUCCESS)
    (fun e =>
       emit (Stderr (Text ("Error: " ++ what_of e)%string)) ;;
       program <- at_index argv 0 ;;
       emit (Stderr (Text ("Usage: " ++ program
                           ++ " [--simulations <number>] [--verbose]")%string)) ;;
       Ret EXIT_FAILURE).

(* ===================================================================== *)
(** * Executions *)
(* ===================================================================== *)

(** ** Against a random source *)

Section Run.

(** [std::mt19937] and [std::uniform_int_distribution<int>] are the
    library's: [Gen] is the state of the generator and
    [uniform_int_distribution a b gen] is one draw of the distribution on
    [a..b], with the state the generator is left in. *)
Variable Gen : Type.
Variable uniform_int_distribution : Z -> Z -> Gen -> Z * Gen.

(** The events of an execution in program order, how it ends and the state
    of the generator at that point.  A distribution on [0..max] with
    [max < 0] violates the precondition of the library. *)
Fixpoint run {A : Type} (p : Sim A) (gen : Gen) : list Event * Result A * Gen :=
  match p with
  | Ret a => ([], Ok a, gen)
  | Throw e => ([], Exn e, gen)
  | Undef => ([], UB, gen)
  | GetRandom max k =>
      if max <? 0 then ([], UB, gen)
      else
        let (r, gen') := uniform_int_distribution 0 max gen in
        let '(events, res, gen'') := run (k r) gen' in
        (Drawn max r :: events, res, gen'')
  | Emit ev k => let '(events, res, gen') := run k gen in (ev :: events, res, gen')
  end.

Definition events_of {A : Type} (x : list Event * Result A * Gen) : list Event :=
  fst (fst x).
Definition result_of {A : Type} (x : list Event * Result A * Gen) : Result A :=
  snd (fst x).
Definition gen_of {A : Type} (x : list Event * Result A * Gen) : Gen :=
  snd x.

(** [count] consecutive calls of [simulateSingleGame] from [gen]: what each
    call leaves behind, in order, and the generator after the last. *)
Fixpoint consecutiveTrials (logger : Logger) (changePlayerDecision : bool)
  (count : nat) (gen : Gen) : list (list Event * Result bool) * Gen :=
  match count with
  | O => ([], gen)
  | S count' =>
      let '(events, res, gen') :=
        run (simulateSingleGame logger changePlayerDecision) gen in
      let (others, gen'') :=
        consecutiveTrials logger changePlayerDecision count' gen' in
      ((events, res) :: others, gen'')
  end.

End Run.

Arguments run {Gen} uniform_int_distribution {A} p gen.
Arguments events_of {Gen A} x.
Arguments result_of {Gen A} x.
Arguments gen_of {Gen A} x.
Arguments consecutiveTrials {Gen} uniform_int_distribution logger
  changePlayerDecision count gen.

(** The boards an execution went through, with the transition each one
    follows. *)
Fixpoint boards_of (events : list Event) : list (Phase * Board) :=
  match events with
  | [] => []
  | BoardAt phase board :: rest => (phase, board) :: boards_of rest
  | _ :: rest => boards_of rest
  end.

(** The values drawn during an execution, in order. *)
Fixpoint draws_of (events : list Event) : list Z :=
  match events with
  | [] => []
  | Drawn _ value :: rest => value :: draws_of rest
  | _ :: rest => draws_of rest
  end.

Definition is_Ok_true (res : Result bool) : bool :=
  match res with Ok true => true | _ => false end.

(** A small linear congruential generator (the multiplier and modulus of
    [std::minstd_rand]), to execute the program on. *)
Definition lcg_next (gen : Z) : Z := (48271 * gen) mod 2147483647.

Definition lcg_uniform (a b : Z) (gen : Z) : Z * Z :=
  (a + lcg_next gen mod (b - a + 1), lcg_next gen).

(** ** Over all draws *)

(** The integers [0..max]. *)
Definition draws (max : Z) : list Z :=
  map Z.of_nat (seq 0 (Z.to_nat (max + 1))).

(** [outcomes p]: the events and the result of every execution of [p], one
    for each way of answering its draws within their distributions. *)
Fixpoint outcomes {A : Type} (p : Sim A) : list (list Event * Result A) :=
  match p with
  | Ret a => [([], Ok a)]
  | Throw e => [([], Exn e)]
  | Undef => [([], UB)]
  | GetRandom max k =>
      if max <? 0 then [([], UB)]
      else
        flat_map
          (fun r => map (fun x => (Drawn max r :: fst x, snd x)) (outcomes (k r)))
          (draws max)
  | Emit ev k => map (fun x => (ev :: fst x, snd x)) (outcomes k)
  end.

(** ** In expectation *)

Definition Qsum (l : list Q) : Q := fold_right Qplus 0%Q l.

(** [expect p f]: the expectation of [f] on how [p] ends, when every draw
    of [uniform_int_distribution(0, max)] gives each of [0..max] with
    probability [1 / (max + 1)], independently of the earlier draws. *)
Fixpoint expect {A : Type} (p : Sim A) (f : Result A -> Q) : Q :=
  match p with
  | Ret a => f (Ok a)
  | Throw e => f (Exn e)
  | Undef => f UB
  | GetRandom max k =>
      if max <? 0 then f UB
      else (Qsum (map (fun r => expect (k r) f) (draws max))
            / inject_Z (max + 1))%Q
  | Emit _ k => expect k f
  end.

(** The probability that [p] ends in a result satisfying [event]. *)
Definition prob {A : Type} (p : Sim A) (event : Result A -> bool) : Q :=
  expect p (fun res => if event res then 1%Q else 0%Q).

Definition returns {A : Type} (eqb : A -> A -> bool) (a : A) (res : Result A)
  : bool :=
  match res with Ok a' => eqb a a' | _ => false end.

(* ===================================================================== *)
(** * Vocabulary of the specification *)
(* ===================================================================== *)

(** The number of doors of [board] with the flag [flag]. *)
Definition count_doors (flag : DoorState -> bool) (board : Board) : nat :=
  List.length (filter flag board).

(** No door of [board] has both flags. *)
Definition never_both (flag1 flag2 : DoorState -> bool) (board : Board) : Prop :=
  forallb (fun door => negb (flag1 door && flag2 door)) board = true.

(** The invariant of the data model: one prize, one selection, at most one
    open door, and the open door is neither the prize nor the selection. *)
Definition board_invariant (board : Board) : Prop :=
  count_doors hasCar board = 1%nat /\
  count_doors selected board = 1%nat /\
  (count_doors open board <= 1)%nat /\
  never_both hasCar open board /\
  never_both selected open board.

(** The invariant as the program keeps it: before the initial selection no
    door is selected. *)
Definition board_invariant_at (phase : Phase) (board : Board) : Prop :=
  count_doors hasCar board = 1%nat /\
  count_doors selected board =
    match phase with PrizeAssigned => 0%nat | _ => 1%nat end /\
  (count_doors open board <= 1)%nat /\
  never_both hasCar open board /\
  never_both selected open board.

(** The transitions of a trial, in order. *)
Definition phases_of_trial (changePlayerDecision : bool) : list Phase :=
  [PrizeAssigned; InitialSelected; Revealed]
  ++ (if changePlayerDecision then [Reselected] else []).

(** The initial pick is the prize door. *)
Definition pick_matches_prize (board : Board) : bool :=
  existsb (fun door => selected door && hasCar door) board.


(** The number of trials of [trials] that returned [true]. *)
Definition wins_of (trials : list (list Event * Result bool)) : Z :=
  Z.of_nat (List.length (filter (fun t => is_Ok_true (snd t)) trials)).

(** The arguments of the summary line of a batch. *)
Definition summary (simulationsNumber winCount : Z) (winRatio : double) : Message :=
  Format "Simulations: {}, Wins: {}, Win Ratio: {:.2f}"
    [ArgInt simulationsNumber; ArgInt winCount; ArgDouble winRatio].


(** The number a batch returns, as a rational (0 when it does not
    return). *)
Definition winCount_of (res : Result Z) : Q :=
  match res with Ok winCount => inject_Z winCount | _ => 0%Q end.

(** The batch does not return, or the quotient of its win count by the
    number of trials is at least [eps] away from [p]. *)
Definition deviates (simulationsNumber : Z) (p eps : Q) (res : Result Z) : bool :=
  match res with
  | Ok winCount =>
      Qle_bool eps (Qabs (inject_Z winCount / inject_Z simulationsNumber - p))
  | _ => true
  end.

(** The win probability of the classical puzzle. *)
Definition win_probability (changePlayerDecision : bool) : Q :=
  if changePlayerDecision then 2 # 3 else 1 # 3.


(** A board after the initial selection, to execute [chooseRandomIndex] on:
    the player picked the prize door 0. *)
Definition pickedPrizeBoard : Board :=
  [mkDoorState true true false; defaultDoorState; defaultDoorState].


(* ===================================================================== *)
(** * Vocabulary of the further properties *)
(* ===================================================================== *)

(** The draws of an execution: the bound of each distribution with the
    value drawn. *)
Fixpoint draw_log (events : list Event) : list (Z * Z) :=
  match events with
  | [] => []
  | Drawn max value :: rest => (max, value) :: draw_log rest
  | _ :: rest => draw_log rest
  end.

(** The lines an execution wrote to [std::cout] and to [std::cerr]. *)
Fixpoint stdout_of (events : list Event) : list Message :=
  match events with
  | [] => []
  | Stdout line :: rest => line :: stdout_of rest
  | _ :: rest => stdout_of rest
  end.

Fixpoint stderr_of (events : list Event) : list Message :=
  match events with
  | [] => []
  | Stderr line :: rest => line :: stderr_of rest
  | _ :: rest => stderr_of rest
  end.

(** An execution without what it wrote to [std::cout]. *)
Fixpoint without_stdout (events : list Event) : list Event :=
  match events with
  | [] => []
  | Stdout _ :: rest => without_stdout rest
  | ev :: rest => ev :: without_stdout rest
  end.

Section Replay.

Variable Gen : Type.
Variable uniform_int_distribution : Z -> Z -> Gen -> Z * Gen.

(** [follows gen log]: the values of [log] are those the random source
    gives, draw after draw, from the state [gen]. *)
Fixpoint follows (gen : Gen) (log : list (Z * Z)) : Prop :=
  match log with
  | [] => True
  | (max, value) :: rest =>
      value = fst (uniform_int_distribution 0 max gen) /\
      follows (snd (uniform_int_distribution 0 max gen)) rest
  end.

(** The state of the random source after the draws of [log]. *)
Fixpoint gen_after (gen : Gen) (log : list (Z * Z)) : Gen :=
  match log with
  | [] => gen
  | (max, _) :: rest => gen_after (snd (uniform_int_distribution 0 max gen)) rest
  end.

End Replay.

Arguments follows {Gen} uniform_int_distribution gen log.
Arguments gen_after {Gen} uniform_int_distribution gen log.

(** The program records no draw of its own: [Drawn] only comes from
    [GetRandom]. *)
Fixpoint records_no_draw {A : Type} (p : Sim A) : bool :=
  match p with
  | GetRandom max k => forallb (fun r => records_no_draw (k r)) (draws max)
  | Emit (Drawn _ _) _ => false
  | Emit _ k => records_no_draw k
  | _ => true
  end.

(** The text [printBoard] builds for a board. *)
Definition boardDisplay (board : Board) : string :=
  fold_left (fun acc door => (acc ++ doorDisplay door)%string) board "".


(** The number of lines a trial prints at each level. *)
Definition trial_lines (level : LogLevel) (changePlayerDecision : bool) : Z :=
  match level with
  | DEBUG => if changePlayerDecision then 10 else 7
  | _ => 0
  end.


(* ===================================================================== *)
(** * Properties *)
(* ===================================================================== *)

(** ** Machine integers *)

Lemma to_int_id (z : Z) : INT_MIN <= z <= INT_MAX -> to_int z = z.
Proof.
  unfold INT_MIN, INT_MAX, to_int. intros H.
  rewrite Z.mod_small by lia. lia.
Qed.

Lemma size_sub_id (a b : Z) : 0 <= a - b < 2 ^ 64 -> size_sub a b = a - b.
Proof. intros H. unfold size_sub. now rewrite Z.mod_small. Qed.

Lemma in_draws (max r : Z) : In r (draws max) <-> 0 <= r <= max.
Proof.
  unfold draws. rewrite in_map_iff. split.
  - intros [n [<- Hn]]. apply in_seq in Hn. lia.
  - intros H. exists (Z.to_nat r). split; [lia|]. apply in_seq. lia.
Qed.

(** ** Executions *)

Section RunFacts.

Context {Gen : Type} (U : Z -> Z -> Gen -> Z * Gen).

Lemma run_bind {A B : Type} (p : Sim A) (f : A -> Sim B) (gen : Gen) :
  run U (bind p f) gen =
  match result_of (run U p gen) with
  | Ok a =>
      let x := run U (f a) (gen_of (run U p gen)) in
      (events_of (run U p gen) ++ events_of x, result_of x, gen_of x)
  | Exn e => (events_of (run U p gen), Exn e, gen_of (run U p gen))
  | UB => (events_of (run U p gen), UB, gen_of (run U p gen))
  end.
Proof.
  revert gen. induction p as [a|e| |max k IH|ev k IH]; intros gen; cbn.
  - now destruct (run U (f a) gen) as [[events res] gen'].
  - reflexivity.
  - reflexivity.
  - destruct (max <? 0); [reflexivity|].
    destruct (U 0 max gen) as [r gen']. rewrite IH.
    unfold result_of, events_of, gen_of.
    destruct (run U (k r) gen') as [[events res] gen'']; cbn.
    destruct res as [a|e|]; reflexivity.
  - rewrite IH. unfold result_of, events_of, gen_of.
    destruct (run U k gen) as [[events res] gen']; cbn.
    destruct res as [a|e|]; reflexivity.
Qed.

Lemma run_seq {A B : Type} (p : Sim A) (f : A -> Sim B) (gen : Gen) (a : A) :
  result_of (run U p gen) = Ok a ->
  run U (bind p f) gen =
  (events_of (run U p gen) ++ events_of (run U (f a) (gen_of (run U p gen))),
   result_of (run U (f a) (gen_of (run U p gen))),
   gen_of (run U (f a) (gen_of (run U p gen)))).
Proof. intros H. now rewrite run_bind, H. Qed.

(** The draws of the library are within their distribution. *)
Hypothesis U_range :
  forall a b gen, a <= b -> a <= fst (U a b gen) <= b.

Lemma run_outcome {A : Type} (p : Sim A) (gen : Gen) :
  In (events_of (run U p gen), result_of (run U p gen)) (outcomes p).
Proof.
  revert gen. induction p as [a|e| |max k IH|ev k IH]; intros gen; cbn.
  - now left.
  - now left.
  - now left.
  - destruct (max <? 0) eqn:Hmax; [now left|].
    apply Z.ltb_ge in Hmax. pose proof (U_range 0 max gen Hmax) as Hr.
    destruct (U 0 max gen) as [r gen']; cbn in Hr.
    apply in_flat_map. exists r. split; [now apply in_draws|].
    apply in_map_iff. specialize (IH r gen').
    exists (events_of (run U (k r) gen'), result_of (run U (k r) gen')).
    split; [|exact IH].
    unfold events_of, result_of.
    now destruct (run U (k r) gen') as [[events res] gen''].
  - apply in_map_iff. specialize (IH gen).
    exists (events_of (run U k gen), result_of (run U k gen)).
    split; [|exact IH].
    unfold events_of, result_of.
    now destruct (run U k gen) as [[events res] gen'].
Qed.

(** What holds of every outcome holds of every execution. *)
Lemma run_Forall {A : Type} (p : Sim A) (Q : list Event * Result A -> Prop) :
  Forall Q (outcomes p) ->
  forall gen, Q (events_of (run U p gen), result_of (run U p gen)).
Proof.
  intros H gen. rewrite Forall_forall in H. apply H, run_outcome.
Qed.

End RunFacts.

(** ** The linear congruential generator is a random source *)

Lemma lcg_uniform_range (a b gen : Z) :
  a <= b -> a <= fst (lcg_uniform a b gen) <= b.
Proof.
  intros H. unfold lcg_uniform; cbn [fst].
  pose proof (Z.mod_pos_bound (lcg_next gen) (b - a + 1)). lia.
Qed.

(** ** One trial *)

(** Enumerates the executions of a closed program. *)
Ltac enumerate_outcomes :=
  match goal with
  | |- Forall _ (outcomes ?p) =>
      let l := eval vm_compute in (outcomes p) in
      change (outcomes p) with l
  end;
  repeat apply Forall_cons; try apply Forall_nil.

Ltac for_every_trial logger changePlayerDecision :=
  destruct logger as [[ | | ]]; destruct changePlayerDecision;
  enumerate_outcomes.

(** On every answer to its draws a trial returns a value. *)
Lemma trial_outcomes_return (logger : Logger) (changePlayerDecision : bool) :
  Forall (fun x => exists won, snd x = Ok won)
         (outcomes (simulateSingleGame logger changePlayerDecision)).
Proof.
  for_every_trial logger changePlayerDecision.
  all: eexists; reflexivity.
Qed.

Section Trial.

Context {Gen : Type} (U : Z -> Z -> Gen -> Z * Gen).
Hypothesis U_range :
  forall a b gen, a <= b -> a <= fst (U a b gen) <= b.

(** Every trial returns: no exception leaves it and it has no undefined
    behaviour. *)
Lemma trial_returns (logger : Logger) (changePlayerDecision : bool) (gen : Gen) :
  exists won,
    result_of (run U (simulateSingleGame logger changePlayerDecision) gen) = Ok won.
Proof.
  apply (run_Forall U U_range _ (fun x => exists won, snd x = Ok won)).
  apply trial_outcomes_return.
Qed.

(** C2, as the program keeps it: the boards of a trial are those after the
    prize assignment, the initial selection, the reveal and, under the
    switch strategy, the reselection, in this order; each of them has
    exactly one door with the prize, at most one open door, and its open
    door is neither the prize door nor a selected door; exactly one door is
    selected from the initial selection on, and none after the prize
    assignment. *)
Theorem trial_board_invariant
  (logger : Logger) (changePlayerDecision : bool) (gen : Gen) :
  let x := run U (simulateSingleGame logger changePlayerDecision) gen in
  map fst (boards_of (events_of x)) = phases_of_trial changePlayerDecision /\
  Forall (fun pb => board_invariant_at (fst pb) (snd pb))
         (boards_of (events_of x)).
Proof.
  cbv zeta.
  apply (run_Forall U U_range _
    (fun x => map fst (boards_of (fst x)) = phases_of_trial changePlayerDecision /\
              Forall (fun pb => board_invariant_at (fst pb) (snd pb))
                     (boards_of (fst x)))).
  for_every_trial logger changePlayerDecision.
  all: split; [reflexivity|].
  all: cbn [fst boards_of]; repeat apply Forall_cons; try apply Forall_nil.
  all: vm_compute; repeat split; try reflexivity; repeat constructor.
Qed.

(** C3: every trial returns a value, so no call of [chooseRandomIndex]
    throws; the board handed to the reveal call has exactly two doors that
    are neither selected nor the prize when the initial pick is the prize
    door and exactly one otherwise, and the board handed to the switch call
    has a door that is neither selected nor open. *)
Theorem reveal_and_switch_candidates_exist
  (logger : Logger) (changePlayerDecision : bool) (gen : Gen) :
  let x := run U (simulateSingleGame logger changePlayerDecision) gen in
  (exists won, result_of x = Ok won) /\
  exists board1 board2 board3 rest,
    boards_of (events_of x) =
      (PrizeAssigned, board1) :: (InitialSelected, board2)
        :: (Revealed, board3) :: rest /\
    List.length (collectIndices revealCondition board2 0) =
      (if pick_matches_prize board2 then 2 else 1)%nat /\
    collectIndices switchCondition board3 0 <> [].
Proof.
  cbv zeta.
  apply (run_Forall U U_range _
    (fun x =>
       (exists won, snd x = Ok won) /\
       exists board1 board2 board3 rest,
         boards_of (fst x) =
           (PrizeAssigned, board1) :: (InitialSelected, board2)
             :: (Revealed, board3) :: rest /\
         List.length (collectIndices revealCondition board2 0) =
           (if pick_matches_prize board2 then 2 else 1)%nat /\
         collectIndices switchCondition board3 0 <> [])).
  for_every_trial logger changePlayerDecision.
  all: split; [eexists; reflexivity|].
  all: do 4 eexists; split; [reflexivity|].
  all: split; [reflexivity|discriminate].
Qed.

(** C6: under the switch strategy, the board after the reveal has exactly
    one door that is neither selected nor open; the reselection clears the
    flag of the door selected until then and sets the flag of that door,
    which differs from it and is the only selected door afterwards. *)
Theorem reselection_takes_the_remaining_door (logger : Logger) (gen : Gen) :
  let x := run U (simulateSingleGame logger true) gen in
  exists board1 board2 board3 board4 oldChoice newChoice,
    boards_of (events_of x) =
      [(PrizeAssigned, board1); (InitialSelected, board2);
       (Revealed, board3); (Reselected, board4)] /\
    collectIndices selected board3 0 = [oldChoice] /\
    collectIndices switchCondition board3 0 = [newChoice] /\
    oldChoice <> newChoice /\
    board4 =
      update_nth
        (update_nth board3 (Z.to_nat oldChoice) (set_selected false))
        (Z.to_nat newChoice) (set_selected true) /\
    collectIndices selected board4 0 = [newChoice].
Proof.
  cbv zeta.
  apply (run_Forall U U_range _
    (fun x =>
       exists board1 board2 board3 board4 oldChoice newChoice,
         boards_of (fst x) =
           [(PrizeAssigned, board1); (InitialSelected, board2);
            (Revealed, board3); (Reselected, board4)] /\
         collectIndices selected board3 0 = [oldChoice] /\
         collectIndices switchCondition board3 0 = [newChoice] /\
         oldChoice <> newChoice /\
         board4 =
           update_nth
             (update_nth board3 (Z.to_nat oldChoice) (set_selected false))
             (Z.to_nat newChoice) (set_selected true) /\
         collectIndices selected board4 0 = [newChoice])).
  destruct logger as [[ | | ]]; enumerate_outcomes.
  all: do 6 eexists; split; [reflexivity|].
  all: split; [reflexivity|]; split; [reflexivity|].
  all: split; [discriminate|]; split; reflexivity.
Qed.

(** C10: the first draw of a trial is the prize index and the second is the
    initial pick, as the board after the initial selection shows; the stay
    strategy returns whether the two are equal and the switch strategy
    whether they differ, whatever is drawn afterwards. *)
Theorem trial_result_determined_by_initial_pick
  (logger : Logger) (changePlayerDecision : bool) (gen : Gen) :
  let x := run U (simulateSingleGame logger changePlayerDecision) gen in
  exists carIndex playerChoiceIndex laterDraws board1 board2 rest,
    draws_of (events_of x) = carIndex :: playerChoiceIndex :: laterDraws /\
    boards_of (events_of x) =
      (PrizeAssigned, board1) :: (InitialSelected, board2) :: rest /\
    collectIndices hasCar board2 0 = [carIndex] /\
    collectIndices selected board2 0 = [playerChoiceIndex] /\
    result_of x =
      Ok (if changePlayerDecision
          then negb (playerChoiceIndex =? carIndex)
          else playerChoiceIndex =? carIndex).
Proof.
  cbv zeta.
  apply (run_Forall U U_range _
    (fun x =>
       exists carIndex playerChoiceIndex laterDraws board1 board2 rest,
         draws_of (fst x) = carIndex :: playerChoiceIndex :: laterDraws /\
         boards_of (fst x) =
           (PrizeAssigned, board1) :: (InitialSelected, board2) :: rest /\
         collectIndices hasCar board2 0 = [carIndex] /\
         collectIndices selected board2 0 = [playerChoiceIndex] /\
         snd x =
           Ok (if changePlayerDecision
               then negb (playerChoiceIndex =? carIndex)
               else playerChoiceIndex =? carIndex))).
  for_every_trial logger changePlayerDecision.
  all: do 6 eexists; split; [reflexivity|].
  all: split; [reflexivity|]; split; [reflexivity|]; split; reflexivity.
Qed.

End Trial.

(** ** chooseRandomIndex *)

Lemma collectIndices_length (condition : DoorState -> bool) (board : Board) (i : Z) :
  List.length (collectIndices condition board i) = count_doors condition board.
Proof.
  revert i. unfold count_doors.
  induction board as [|door rest IH]; intros i; cbn; [reflexivity|].
  destruct (condition door); cbn; now rewrite IH.
Qed.

Lemma collectIndices_In (condition : DoorState -> bool) (board : Board) (i j : Z) :
  0 <= i -> i + size board <= INT_MAX + 1 ->
  In j (collectIndices condition board i) <->
  i <= j < i + size board /\
  exists door, nth_error board (Z.to_nat (j - i)) = Some door /\
               condition door = true.
Proof.
  revert i. unfold size.
  induction board as [|door rest IH]; intros i Hi Hsize; cbn [collectIndices].
  - cbn. split; [intros []|]. lia.
  - cbn [List.length] in *.
    assert (Hto : to_int i = i)
      by (apply to_int_id; unfold INT_MIN, INT_MAX in *; lia).
    assert (Hrest : In j (collectIndices condition rest (i + 1)) <->
                    i + 1 <= j < i + 1 + Z.of_nat (List.length rest) /\
                    exists door', nth_error rest (Z.to_nat (j - (i + 1))) = Some door' /\
                                  condition door' = true)
      by (apply IH; lia).
    assert (Hhead : j = i ->
              (exists door', nth_error (door :: rest) (Z.to_nat (j - i)) = Some door' /\
                             condition door' = true) <-> condition door = true).
    { intros ->. rewrite Z.sub_diag. cbn. split.
      - intros [door' [[= <-] H]]. exact H.
      - intros H. now exists door. }
    assert (Htail : i < j ->
              nth_error (door :: rest) (Z.to_nat (j - i)) =
              nth_error rest (Z.to_nat (j - (i + 1)))).
    { intros H. replace (Z.to_nat (j - i)) with (S (Z.to_nat (j - (i + 1)))) by lia.
      reflexivity. }
    destruct (condition door) eqn:Hc.
    + cbn [In]. rewrite Hto, Hrest. split.
      * intros [<-|[Hj Hd]].
        -- split; [lia|]. now apply Hhead.
        -- split; [lia|]. rewrite Htail by lia. exact Hd.
      * intros [Hj Hd]. destruct (Z.eq_dec i j) as [Heq|Hne]; [now left|right].
        split; [lia|]. rewrite <- Htail by lia. exact Hd.
    + rewrite Hrest. split.
      * intros [Hj Hd]. split; [lia|]. rewrite Htail by lia. exact Hd.
      * intros [Hj Hd]. destruct (Z.eq_dec j i) as [Heq|Hne].
        -- apply (Hhead Heq) in Hd. congruence.
        -- split; [lia|]. rewrite <- Htail by lia. exact Hd.
Qed.

Lemma collectIndices_sorted (condition : DoorState -> bool) (board : Board) (i : Z) :
  0 <= i -> i + size board <= INT_MAX + 1 ->
  StronglySorted Z.lt (collectIndices condition board i).
Proof.
  revert i. unfold size.
  induction board as [|door rest IH]; intros i Hi Hsize; cbn [collectIndices].
  - constructor.
  - cbn [List.length] in *.
    destruct (condition door).
    + constructor; [apply IH; lia|].
      rewrite to_int_id by (unfold INT_MIN, INT_MAX in *; lia).
      apply Forall_forall. intros j Hj.
      apply collectIndices_In in Hj; unfold size; lia.
    + apply IH; lia.
Qed.

(** ** Expectations *)

Local Open Scope Q_scope.

Lemma Qsum_cons (x : Q) (l : list Q) : Qsum (x :: l) = x + Qsum l.
Proof. reflexivity. Qed.

Lemma Qsum_map_ext {A : Type} (f g : A -> Q) (l : list A) :
  (forall x, In x l -> f x == g x) -> Qsum (map f l) == Qsum (map g l).
Proof.
  induction l as [|x l IH]; intros H; cbn [map]; [reflexivity|].
  rewrite !Qsum_cons, (H x) by now left. rewrite IH; [reflexivity|].
  intros y Hy. apply H. now right.
Qed.

Lemma Qsum_map_le {A : Type} (f g : A -> Q) (l : list A) :
  (forall x, In x l -> f x <= g x) -> Qsum (map f l) <= Qsum (map g l).
Proof.
  induction l as [|x l IH]; intros H; cbn [map]; [cbn; lra|].
  rewrite !Qsum_cons.
  apply Qplus_le_compat; [apply H; now left|].
  apply IH. intros y Hy. apply H. now right.
Qed.

Lemma Qsum_map_plus {A : Type} (f g : A -> Q) (l : list A) :
  Qsum (map (fun x => f x + g x) l) == Qsum (map f l) + Qsum (map g l).
Proof.
  induction l as [|x l IH]; cbn [map]; [cbn; lra|].
  rewrite !Qsum_cons, IH. lra.
Qed.

Lemma Qsum_map_scale {A : Type} (c : Q) (f : A -> Q) (l : list A) :
  Qsum (map (fun x => c * f x) l) == c * Qsum (map f l).
Proof.
  induction l as [|x l IH]; cbn [map]; [cbn; lra|].
  rewrite !Qsum_cons, IH. lra.
Qed.

Lemma Qsum_map_const {A : Type} (c : Q) (l : list A) :
  Qsum (map (fun _ => c) l) == inject_Z (Z.of_nat (List.length l)) * c.
Proof.
  induction l as [|x l IH]; [cbn; ring|].
  cbn [map List.length]. rewrite Qsum_cons, IH, Nat2Z.inj_succ.
  unfold Z.succ. rewrite inject_Z_plus. ring.
Qed.

Lemma draws_length (max : Z) :
  (0 <= max)%Z -> Z.of_nat (List.length (draws max)) = (max + 1)%Z.
Proof. intros H. unfold draws. rewrite length_map, length_seq. lia. Qed.

Lemma inject_Z_pos (z : Z) : (0 < z)%Z -> 0 < inject_Z z.
Proof. intros H. change 0 with (inject_Z 0). now rewrite <- Zlt_Qlt. Qed.

Lemma expect_ext {A : Type} (p : Sim A) (f g : Result A -> Q) :
  (forall res, f res == g res) -> expect p f == expect p g.
Proof.
  intros H. induction p as [a|e| |max k IH|ev k IH]; cbn; auto.
  destruct (max <? 0)%Z; [apply H|].
  apply Qmult_comp; [|reflexivity].
  apply Qsum_map_ext. intros r _. apply IH.
Qed.

Lemma expect_le {A : Type} (p : Sim A) (f g : Result A -> Q) :
  (forall res, f res <= g res) -> expect p f <= expect p g.
Proof.
  intros H. induction p as [a|e| |max k IH|ev k IH]; cbn; auto.
  destruct (max <? 0)%Z eqn:Hmax; [apply H|]. apply Z.ltb_ge in Hmax.
  apply Qmult_le_compat_r.
  - apply Qsum_map_le. intros r _. apply IH.
  - apply Qinv_le_0_compat, Qlt_le_weak, inject_Z_pos. lia.
Qed.

Lemma expect_const {A : Type} (p : Sim A) (c : Q) :
  expect p (fun _ => c) == c.
Proof.
  induction p as [a|e| |max k IH|ev k IH]; cbn; try reflexivity; auto.
  destruct (max <? 0)%Z eqn:Hmax; [reflexivity|]. apply Z.ltb_ge in Hmax.
  rewrite (Qsum_map_ext _ (fun _ => c)) by (intros r _; apply IH).
  rewrite Qsum_map_const, draws_length by assumption.
  field. intros H0. pose proof (inject_Z_pos (max + 1) ltac:(lia)). lra.
Qed.

Lemma expect_plus {A : Type} (p : Sim A) (f g : Result A -> Q) :
  expect p (fun res => f res + g res) == expect p f + expect p g.
Proof.
  induction p as [a|e| |max k IH|ev k IH]; cbn; try reflexivity; auto.
  destruct (max <? 0)%Z eqn:Hmax; [reflexivity|]. apply Z.ltb_ge in Hmax.
  rewrite (Qsum_map_ext _ (fun r => expect (k r) f + expect (k r) g))
    by (intros r _; apply IH).
  rewrite Qsum_map_plus.
  field. intros H0. pose proof (inject_Z_pos (max + 1) ltac:(lia)). lra.
Qed.

Lemma expect_scale {A : Type} (p : Sim A) (c : Q) (f : Result A -> Q) :
  expect p (fun res => c * f res) == c * expect p f.
Proof.
  induction p as [a|e| |max k IH|ev k IH]; cbn; try reflexivity; auto.
  destruct (max <? 0)%Z eqn:Hmax; [reflexivity|]. apply Z.ltb_ge in Hmax.
  rewrite (Qsum_map_ext _ (fun r => c * expect (k r) f))
    by (intros r _; apply IH).
  rewrite Qsum_map_scale.
  field. intros H0. pose proof (inject_Z_pos (max + 1) ltac:(lia)). lra.
Qed.

(** The expectation of a sequence is the expectation, over how its first
    part ends, of the expectation of what follows. *)
Lemma expect_bind {A B : Type} (p : Sim A) (k : A -> Sim B) (f : Result B -> Q) :
  expect (bind p k) f ==
  expect p (fun res =>
              match res with
              | Ok a => expect (k a) f
              | Exn e => f (Exn e)
              | UB => f UB
              end).
Proof.
  induction p as [a|e| |max k' IH|ev k' IH]; cbn; try reflexivity; auto.
  destruct (max <? 0)%Z; [reflexivity|].
  apply Qmult_comp; [|reflexivity].
  apply Qsum_map_ext. intros r _. apply IH.
Qed.

Local Close Scope Q_scope.

Lemma at_index_nth {A : Type} (v : list A) (i : Z) :
  0 <= i < size v ->
  exists x, nth_error v (Z.to_nat i) = Some x /\ at_index v i = Ret x.
Proof.
  intros H. unfold at_index, size in *.
  replace ((0 <=? i) && (i <? Z.of_nat (List.length v))) with true
    by (symmetry; apply andb_true_iff; split; [apply Z.leb_le|apply Z.ltb_lt]; lia).
  destruct (nth_error v (Z.to_nat i)) as [x|] eqn:Hx.
  - now exists x.
  - apply nth_error_None in Hx. lia.
Qed.

Lemma at_index_cons {A : Type} (x : A) (v : list A) (n : nat) :
  at_index (x :: v) (Z.of_nat (S n)) = at_index v (Z.of_nat n).
Proof.
  unfold at_index, size. cbn [List.length].
  rewrite !Nat2Z.id. cbn [nth_error].
  replace (Z.of_nat (S n) <? Z.of_nat (S (List.length v)))
    with (Z.of_nat n <? Z.of_nat (List.length v)).
  - replace (0 <=? Z.of_nat (S n)) with true by (symmetry; apply Z.leb_le; lia).
    replace (0 <=? Z.of_nat n) with true by (symmetry; apply Z.leb_le; lia).
    reflexivity.
  - destruct (Z.ltb_spec (Z.of_nat n) (Z.of_nat (List.length v)));
      destruct (Z.ltb_spec (Z.of_nat (S n)) (Z.of_nat (S (List.length v))));
      try reflexivity; lia.
Qed.

(** Averaging over a uniform position of [v] is averaging over [v]. *)
Lemma Qsum_at_index {A : Type} (v : list A) (f : Result A -> Q) :
  (Qsum (map (fun r => expect (at_index v r) f)
             (map Z.of_nat (seq 0 (List.length v))))
   == Qsum (map (fun x => f (Ok x)) v))%Q.
Proof.
  induction v as [|x v IH]; [reflexivity|].
  cbn [List.length seq map]. rewrite !Qsum_cons.
  apply Qplus_comp; [reflexivity|].
  rewrite <- seq_shift, !map_map.
  rewrite <- IH, map_map.
  apply Qsum_map_ext. intros n _. now rewrite at_index_cons.
Qed.

Lemma Qsum_indicator_absent (index : Z) (v : list Z) :
  ~ In index v ->
  (Qsum (map (fun x => if returns Z.eqb index (Ok x) then 1 else 0) v) == 0)%Q.
Proof.
  induction v as [|x v IH]; intros H; [reflexivity|].
  cbn [map]. rewrite Qsum_cons.
  rewrite IH by (intros Hin; apply H; now right).
  unfold returns at 1. destruct (Z.eqb_spec index x) as [->|Hne].
  - exfalso. apply H. now left.
  - reflexivity.
Qed.

Lemma Qsum_indicator_once (index : Z) (v : list Z) :
  StronglySorted Z.lt v -> In index v ->
  (Qsum (map (fun x => if returns Z.eqb index (Ok x) then 1 else 0) v) == 1)%Q.
Proof.
  induction 1 as [|x v Hsorted IH Hall]; intros Hin; [destruct Hin|].
  rewrite Forall_forall in Hall.
  cbn [map]. rewrite Qsum_cons. unfold returns at 1.
  destruct (Z.eqb_spec index x) as [->|Hne].
  - rewrite Qsum_indicator_absent; [reflexivity|].
    intros Hx. apply Hall in Hx. lia.
  - destruct Hin as [Heq|Hin]; [congruence|].
    rewrite IH by assumption. reflexivity.
Qed.

Section ChooseRandomIndex.

Context {Gen : Type} (U : Z -> Z -> Gen -> Z * Gen).
Hypothesis U_range :
  forall a b gen, a <= b -> a <= fst (U a b gen) <= b.

Variable board : Board.
Variable condition : DoorState -> bool.
Hypothesis board_size : size board <= INT_MAX.

Let indices : list Z := collectIndices condition board 0.

Lemma indices_size : size indices <= INT_MAX.
Proof.
  unfold size, indices in *. rewrite collectIndices_length.
  unfold count_doors. pose proof (filter_length_le condition board). lia.
Qed.

Lemma chooseRandomIndex_nonempty :
  indices <> [] ->
  chooseRandomIndex board condition =
  GetRandom (size indices - 1) (fun r => at_index indices r).
Proof.
  intros H. unfold chooseRandomIndex. fold indices.
  pose proof indices_size as Hsize.
  destruct indices as [|x l] eqn:E; [congruence|].
  assert (Hpos : 1 <= size (x :: l)) by (unfold size; cbn [List.length]; lia).
  rewrite size_sub_id by (unfold INT_MAX in *; lia).
  rewrite to_int_id by (unfold INT_MIN, INT_MAX in *; lia).
  reflexivity.
Qed.

(** C5: the indices collected by [chooseRandomIndex] are, in ascending
    order, exactly the indices of the doors that satisfy the condition.
    A call throws if and only if there is none.  Otherwise it makes one
    draw [r] among the positions of this list and returns its [r]-th
    element, an index within the board of a door that satisfies the
    condition; each collected index is returned with probability one over
    the number of doors that satisfy the condition. *)
Theorem chooseRandomIndex_contract :
  StronglySorted Z.lt indices /\
  (forall i, In i indices <->
             0 <= i < size board /\
             exists door, nth_error board (Z.to_nat i) = Some door /\
                          condition door = true) /\
  (forall gen,
     let x := run U (chooseRandomIndex board condition) gen in
     ((exists e, result_of x = Exn e) <-> indices = []) /\
     match result_of x with
     | Ok index =>
         In index indices /\
         exists r, draws_of (events_of x) = [r] /\ 0 <= r < size indices /\
                   nth_error indices (Z.to_nat r) = Some index
     | Exn e => e = invalid_argument "No suitable indices available"
     | UB => False
     end) /\
  (forall index, In index indices ->
     (prob (chooseRandomIndex board condition) (returns Z.eqb index)
      == 1 / inject_Z (Z.of_nat (count_doors condition board)))%Q).
Proof.
  assert (Hmem : forall i, In i indices <->
             0 <= i < size board /\
             exists door, nth_error board (Z.to_nat i) = Some door /\
                          condition door = true).
  { intros i. unfold indices.
    rewrite collectIndices_In by (unfold INT_MAX in *; lia).
    now rewrite Z.sub_0_r, Z.add_0_l. }
  assert (Hsorted : StronglySorted Z.lt indices)
    by (apply collectIndices_sorted; unfold INT_MAX in *; lia).
  split; [exact Hsorted|]. split; [exact Hmem|]. split.
  - intros gen. cbv zeta.
    destruct indices as [|first others] eqn:E.
    + unfold chooseRandomIndex. fold indices. rewrite E. cbn.
      split; [|reflexivity]. split; [reflexivity|]. intros _. eauto.
    + rewrite chooseRandomIndex_nonempty by (fold indices; rewrite E; discriminate).
      fold indices. rewrite E.
      assert (Hpos : 1 <= size (first :: others))
        by (unfold size; cbn [List.length]; lia).
      cbn [run].
      replace (size (first :: others) - 1 <? 0) with false
        by (symmetry; apply Z.ltb_ge; lia).
      pose proof (U_range 0 (size (first :: others) - 1) gen ltac:(lia)) as Hr.
      destruct (U 0 (size (first :: others) - 1) gen) as [r gen'].
      cbn [fst] in Hr.
      destruct (at_index_nth (first :: others) r ltac:(lia)) as [index [Hnth ->]].
      cbn [run result_of events_of fst snd draws_of]. split.
      * split; [intros [e [=]]|discriminate].
      * split; [eapply nth_error_In; exact Hnth|].
        exists r. repeat split; try lia. exact Hnth.
  - intros index Hin.
    assert (Hne : indices <> []) by (intros E; rewrite E in Hin; destruct Hin).
    rewrite chooseRandomIndex_nonempty by exact Hne.
    assert (Hlen : Z.of_nat (count_doors condition board) = size indices)
      by (unfold size, indices; now rewrite collectIndices_length).
    assert (Hpos : 1 <= size indices).
    { unfold size. destruct indices; [congruence|cbn [List.length]; lia]. }
    unfold prob. cbn [expect].
    replace (size indices - 1 <? 0) with false by (symmetry; apply Z.ltb_ge; lia).
    unfold draws.
    replace (Z.to_nat (size indices - 1 + 1)) with (List.length indices)
      by (unfold size; lia).
    rewrite Qsum_at_index, Qsum_indicator_once by assumption.
    rewrite Hlen. replace (size indices - 1 + 1) with (size indices) by lia.
    reflexivity.
Qed.

End ChooseRandomIndex.

(** ** A batch *)

Lemma runSimulation_loop_done (logger : Logger) (n : Z) (b : bool) (i winCount : Z) :
  n <= i -> runSimulation_loop logger n b i winCount = Ret winCount.
Proof.
  intros H. rewrite runSimulation_loop_equation_1.
  destruct (Z_lt_dec i n); [lia|reflexivity].
Qed.

Lemma runSimulation_loop_step (logger : Logger) (n : Z) (b : bool) (i winCount : Z) :
  i < n ->
  runSimulation_loop logger n b i winCount =
  (won <- simulateSingleGame logger b ;;
   winCount' <- int_add winCount (int_of_bool won) ;;
   if i + 1 <=? INT_MAX
   then runSimulation_loop logger n b (i + 1) winCount'
   else Undef)%sim.
Proof.
  intros H. rewrite runSimulation_loop_equation_1.
  destruct (Z_lt_dec i n); [reflexivity|lia].
Qed.

Lemma int_add_in_range (a b : Z) :
  INT_MIN <= a + b <= INT_MAX -> int_add a b = Ret (a + b).
Proof.
  intros H. unfold int_add.
  replace ((INT_MIN <=? a + b) && (a + b <=? INT_MAX)) with true; [reflexivity|].
  symmetry. apply andb_true_iff. split; apply Z.leb_le; lia.
Qed.

Lemma wins_of_cons (t : list Event * Result bool) (trials : list (list Event * Result bool)) :
  wins_of (t :: trials) = int_of_bool (is_Ok_true (snd t)) + wins_of trials.
Proof.
  unfold wins_of. cbn [filter].
  destruct (is_Ok_true (snd t)); cbn [List.length int_of_bool]; lia.
Qed.

Lemma wins_of_bounds (trials : list (list Event * Result bool)) :
  0 <= wins_of trials <= Z.of_nat (List.length trials).
Proof.
  unfold wins_of.
  pose proof (filter_length_le (fun t => is_Ok_true (snd t)) trials). lia.
Qed.

Section Batch.

Context {Gen : Type} (U : Z -> Z -> Gen -> Z * Gen).
Hypothesis U_range :
  forall a b gen, a <= b -> a <= fst (U a b gen) <= b.

Variable logger : Logger.

Lemma consecutiveTrials_return (b : bool) (count : nat) (gen : Gen) :
  List.length (fst (consecutiveTrials U logger b count gen)) = count /\
  Forall (fun t => exists won, snd t = Ok won)
         (fst (consecutiveTrials U logger b count gen)).
Proof.
  revert gen. induction count as [|count IH]; intros gen; cbn [consecutiveTrials].
  - split; [reflexivity|constructor].
  - destruct (trial_returns U U_range logger b gen) as [won Hwon].
    unfold result_of in Hwon.
    destruct (run U (simulateSingleGame logger b) gen) as [[events res] gen'].
    cbn [fst snd] in Hwon. subst res.
    specialize (IH gen').
    destruct (consecutiveTrials U logger b count gen') as [others gen''].
    cbn [fst] in *. destruct IH as [Hlen Hall].
    split; [cbn [List.length]; now rewrite Hlen|].
    constructor; [now exists won|exact Hall].
Qed.

(** The loop from [(i, winCount)] is the remaining trials one after the
    other; it adds their wins to [winCount]. *)
Lemma run_runSimulation_loop (n : Z) (b : bool) :
  n <= INT_MAX ->
  forall (count : nat) (i winCount : Z) (gen : Gen),
    count = Z.to_nat (n - i) -> INT_MIN <= i ->
    0 <= winCount -> winCount + Z.of_nat count <= INT_MAX ->
    run U (runSimulation_loop logger n b i winCount) gen =
    (List.concat (map fst (fst (consecutiveTrials U logger b count gen))),
     Ok (winCount + wins_of (fst (consecutiveTrials U logger b count gen))),
     snd (consecutiveTrials U logger b count gen)).
Proof.
  intros Hn. induction count as [|count IH]; intros i winCount gen Hcount Hi Hw Hmax.
  - rewrite runSimulation_loop_done by lia.
    cbn. now rewrite Z.add_0_r.
  - rewrite runSimulation_loop_step by lia.
    rewrite run_bind. cbn [consecutiveTrials].
    destruct (trial_returns U U_range logger b gen) as [won Hwon].
    rewrite Hwon.
    unfold result_of, events_of, gen_of in *.
    destruct (run U (simulateSingleGame logger b) gen) as [[events res] gen'].
    cbn [fst snd] in *. subst res.
    rewrite int_add_in_range
      by (unfold INT_MIN in *; destruct won; cbn [int_of_bool]; lia).
    cbn [bind].
    replace (i + 1 <=? INT_MAX) with true by (symmetry; apply Z.leb_le; lia).
    rewrite (IH (i + 1) (winCount + int_of_bool won) gen')
      by (try (destruct won; cbn [int_of_bool]); lia).
    destruct (consecutiveTrials U logger b count gen') as [others gen''].
    cbn [fst snd map List.concat]. rewrite wins_of_cons. cbn [snd is_Ok_true].
    destruct won; now rewrite Z.add_assoc.
Qed.

(** A batch is its trials one after the other, then the summary line with
    the number of wins and its quotient by the number of trials. *)
Lemma run_runSimulation (n : Z) (b : bool) (gen : Gen) :
  n <= INT_MAX ->
  let trials := consecutiveTrials U logger b (Z.to_nat n) gen in
  let winCount := wins_of (fst trials) in
  let winRatio := double_div (double_of_int winCount) (double_of_int n) in
  run U (runSimulation logger n b) gen =
  (List.concat (map fst (fst trials))
     ++ events_of (run U (Logger_info logger (summary n winCount winRatio))
                     (snd trials)),
   Ok tt, snd trials).
Proof.
  intros Hn. cbv zeta. unfold runSimulation.
  rewrite run_bind.
  rewrite (run_runSimulation_loop n b Hn (Z.to_nat n) 0 0 gen)
    by (unfold INT_MIN, INT_MAX in *; lia).
  cbn [result_of events_of gen_of fst snd]. rewrite Z.add_0_l.
  unfold summary, Logger_info, Logger_log.
  destruct (LogLevel_rank (logLevel logger) <=? LogLevel_rank INFO); reflexivity.
Qed.

Lemma run_Logger_log (message : Message) (level : LogLevel) (gen : Gen) :
  result_of (run U (Logger_log logger message level) gen) = Ok tt /\
  gen_of (run U (Logger_log logger message level) gen) = gen.
Proof.
  unfold Logger_log.
  destruct (LogLevel_rank (logLevel logger) <=? LogLevel_rank level);
    split; reflexivity.
Qed.

Lemma Logger_info_shown (message : Message) (gen : Gen) :
  logLevel logger <> WARN ->
  events_of (run U (Logger_info logger message) gen) = [Stdout message].
Proof.
  unfold Logger_info, Logger_log. destruct logger as [[ | | ]]; cbn; congruence.
Qed.

(** C7: for a positive number of trials (an [int]), a batch executes as
    that many consecutive calls of [simulateSingleGame], each of which
    returns, followed by the summary line; the win count of the summary is
    the number of calls that returned [true], between zero and the number
    of trials, and its win ratio is the [double] quotient of the win count
    by the number of trials.  Unless the level of the logger is [WARN], the
    summary is the last line of the batch on [std::cout]. *)
Theorem runSimulation_counts_wins (n : Z) (b : bool) (gen : Gen) :
  0 < n <= INT_MAX ->
  let trials := consecutiveTrials U logger b (Z.to_nat n) gen in
  let winCount := wins_of (fst trials) in
  let winRatio := double_div (double_of_int winCount) (double_of_int n) in
  Z.of_nat (List.length (fst trials)) = n /\
  Forall (fun t => exists won, snd t = Ok won) (fst trials) /\
  0 <= winCount <= n /\
  run U (runSimulation logger n b) gen =
    (List.concat (map fst (fst trials))
       ++ events_of (run U (Logger_info logger (summary n winCount winRatio))
                       (snd trials)),
     Ok tt, snd trials) /\
  (logLevel logger <> WARN ->
   events_of (run U (runSimulation logger n b) gen) =
     List.concat (map fst (fst trials)) ++ [Stdout (summary n winCount winRatio)]).
Proof.
  intros Hn. cbv zeta.
  destruct (consecutiveTrials_return b (Z.to_nat n) gen) as [Hlen Hall].
  pose proof (wins_of_bounds (fst (consecutiveTrials U logger b (Z.to_nat n) gen)))
    as Hwins.
  rewrite Hlen in Hwins.
  split; [rewrite Hlen; lia|]. split; [exact Hall|]. split; [lia|].
  rewrite run_runSimulation by lia. split; [reflexivity|].
  intros Hlevel. cbn [events_of fst]. now rewrite Logger_info_shown.
Qed.

(** C9: a batch of one trial reports a win count of 0 with the win ratio
    0.0, or a win count of 1 with the win ratio 1.0, as [double]s. *)
Theorem single_trial_batch_ratio_exact (b : bool) (gen : Gen) :
  let trials := consecutiveTrials U logger b 1 gen in
  let winCount := wins_of (fst trials) in
  let winRatio := double_div (double_of_int winCount) (double_of_int 1) in
  (winCount = 0 /\ winRatio = double_zero \/
   winCount = 1 /\ winRatio = double_one) /\
  run U (runSimulation logger 1 b) gen =
    (List.concat (map fst (fst trials))
       ++ events_of (run U (Logger_info logger (summary 1 winCount winRatio))
                       (snd trials)),
     Ok tt, snd trials).
Proof.
  cbv zeta. split.
  - destruct (consecutiveTrials_return b 1 gen) as [Hlen _].
    pose proof (wins_of_bounds (fst (consecutiveTrials U logger b 1 gen))) as Hwins.
    rewrite Hlen in Hwins.
    assert (Hcases : wins_of (fst (consecutiveTrials U logger b 1 gen)) = 0 \/
                     wins_of (fst (consecutiveTrials U logger b 1 gen)) = 1) by lia.
    destruct Hcases as [-> | ->]; [left|right]; split; reflexivity.
  - apply (run_runSimulation 1 b gen). unfold INT_MAX. lia.
Qed.

(** C8: [simulate] announces and runs the stay batch, then announces and
    runs the switch batch, with the same number of trials; both batches
    return, and the switch batch draws from the random source in the state
    in which the stay batch left it. *)
Theorem simulate_runs_stay_then_switch (n : Z) (gen : Gen) :
  n <= INT_MAX ->
  let stay := run U (runSimulation logger n false) gen in
  let switch := run U (runSimulation logger n true) (gen_of stay) in
  result_of stay = Ok tt /\
  result_of switch = Ok tt /\
  run U (simulate logger n) gen =
    (events_of
       (run U (Logger_info logger
          (Text "Running simulation where the player does not change the door:"))
          gen)
     ++ events_of stay
     ++ events_of
          (run U (Logger_info logger
             (Text "Running simulation where the player changes the door:"))
             (gen_of stay))
     ++ events_of switch,
     Ok tt, gen_of switch).
Proof.
  intros Hn. cbv zeta.
  assert (Hret : forall b g, result_of (run U (runSimulation logger n b) g) = Ok tt)
    by (intros b g; now rewrite run_runSimulation).
  split; [apply Hret|]. split; [apply Hret|].
  unfold simulate, Logger_info.
  rewrite (run_seq U _ _ gen tt) by apply run_Logger_log.
  rewrite (proj2 (run_Logger_log _ _ gen)).
  rewrite (run_seq U _ _ gen tt) by apply Hret.
  rewrite (run_seq U _ _ _ tt) by apply run_Logger_log.
  rewrite (proj2 (run_Logger_log _ _ _)).
  cbn [events_of result_of gen_of fst snd]. fold (@result_of Gen unit).
  now rewrite Hret.
Qed.

End Batch.

(** ** The command line *)

Lemma stoi_cases (str : string) :
  (exists n, INT_MIN <= n <= INT_MAX /\ stoi str = Ret n) \/
  stoi str = Throw (invalid_argument "stoi") \/
  stoi str = Throw (out_of_range "stoi").
Proof.
  unfold stoi.
  destruct (match skip_spaces str with
            | String "-"%char rest => (true, rest)
            | String "+"%char rest => (false, rest)
            | _ => (false, skip_spaces str)
            end) as [negative s].
  destruct (starts_with_digit s); [|now right; left].
  destruct ((INT_MIN <=? (if negative then - read_digits s 0 else read_digits s 0))
            && ((if negative then - read_digits s 0 else read_digits s 0) <=? INT_MAX))
    eqn:Hrange; [left|now right; right].
  apply andb_true_iff in Hrange. destruct Hrange as [Hlo Hhi].
  apply Z.leb_le in Hlo. apply Z.leb_le in Hhi.
  eexists. split; [|reflexivity]. lia.
Qed.

Example stoi_zero : stoi "0" = Ret 0.
Proof. reflexivity. Qed.

Example stoi_negative : stoi "-5" = Ret (-5).
Proof. reflexivity. Qed.

Example stoi_digits_then_letters : stoi " 12abc" = Ret 12.
Proof. reflexivity. Qed.

Example stoi_letters : stoi "abc" = Throw (invalid_argument "stoi").
Proof. reflexivity. Qed.

Example stoi_too_large : stoi "2147483648" = Throw (out_of_range "stoi").
Proof. reflexivity. Qed.

Section Main.

Context {Gen : Type} (U : Z -> Z -> Gen -> Z * Gen).

Lemma run_try_catch {A : Type} (p : Sim A) (h : exn -> Sim A) (gen : Gen) :
  run U (try_catch p h) gen =
  match result_of (run U p gen) with
  | Exn e =>
      let x := run U (h e) (gen_of (run U p gen)) in
      (events_of (run U p gen) ++ events_of x, result_of x, gen_of x)
  | _ => run U p gen
  end.
Proof.
  revert gen. induction p as [a|e| |max k IH|ev k IH]; intros gen; cbn.
  - reflexivity.
  - now destruct (run U (h e) gen) as [[events res] gen'].
  - reflexivity.
  - destruct (max <? 0); [reflexivity|].
    destruct (U 0 max gen) as [r gen']. rewrite IH.
    unfold result_of, events_of, gen_of.
    destruct (run U (k r) gen') as [[events res] gen'']; cbn.
    destruct res as [a|e|]; reflexivity.
  - rewrite IH. unfold result_of, events_of, gen_of.
    destruct (run U k gen) as [[events res] gen']; cbn.
    destruct res as [a|e|]; reflexivity.
Qed.

Hypothesis U_range :
  forall a b gen, a <= b -> a <= fst (U a b gen) <= b.

Lemma simulate_returns (logger : Logger) (n : Z) (gen : Gen) :
  n <= INT_MAX -> result_of (run U (simulate logger n) gen) = Ok tt.
Proof.
  intros Hn.
  assert (Hret : forall b g, result_of (run U (runSimulation logger n b) g) = Ok tt)
    by (intros b g; now rewrite (run_runSimulation U U_range)).
  unfold simulate, Logger_info.
  rewrite (run_seq U _ _ gen tt) by apply run_Logger_log.
  rewrite (proj2 (run_Logger_log U logger _ _ gen)).
  rewrite (run_seq U _ _ gen tt) by apply Hret.
  rewrite (run_seq U _ _ _ tt) by apply run_Logger_log.
  rewrite (proj2 (run_Logger_log U logger _ _ _)).
  cbn [events_of result_of gen_of fst snd]. fold (@result_of Gen unit).
  apply Hret.
Qed.

(** C4, as the program behaves: the value after [--simulations] is rejected
    exactly when [std::stoi] throws on it.  Then nothing runs: the line
    "Error: " with the message of the exception and the usage line go to
    [std::cerr] and the exit code is [EXIT_FAILURE].  When [std::stoi] returns [n], [simulate] runs with [n]
    and the exit code is [EXIT_SUCCESS]; for [n <= 0] no trial runs, no
    draw is made, and each batch reports zero wins with the [double]
    quotient of 0 by [n] as win ratio, which is NaN for [n = 0]. *)
Theorem simulations_value_rejected_iff_stoi_throws
  (program value : string) (gen : Gen) :
  let x := run U (main [program; "--simulations"; value]) gen in
  let ratio n := double_div (double_of_int 0) (double_of_int n) in
  ((exists e, stoi value = Throw e) \/ (exists n, stoi value = Ret n)) /\
  (forall e, stoi value = Throw e ->
     x = ([Stderr (Text ("Error: " ++ what_of e)%string);
           Stderr (Text ("Usage: " ++ program
                         ++ " [--simulations <number>] [--verbose]")%string)],
          Ok EXIT_FAILURE, gen)) /\
  (forall n, stoi value = Ret n ->
     x = (events_of (run U (simulate (mkLogger INFO) n) gen),
          Ok EXIT_SUCCESS,
          gen_of (run U (simulate (mkLogger INFO) n) gen))) /\
  (forall n, stoi value = Ret n -> n <= 0 ->
     x = ([Stdout (Text "Running simulation where the player does not change the door:");
           Stdout (summary n 0 (ratio n));
           Stdout (Text "Running simulation where the player changes the door:");
           Stdout (summary n 0 (ratio n))],
          Ok EXIT_SUCCESS, gen)) /\
  ratio 0 = S754_nan.
Proof.
  cbv zeta.
  assert (Haccept : forall n, stoi value = Ret n ->
     run U (main [program; "--simulations"; value]) gen =
     (events_of (run U (simulate (mkLogger INFO) n) gen),
      Ok EXIT_SUCCESS,
      gen_of (run U (simulate (mkLogger INFO) n) gen))).
  { intros n Hn.
    assert (Hint : n <= INT_MAX).
    { destruct (stoi_cases value) as [[m [Hm Hv]]|[Hv|Hv]];
        rewrite Hv in Hn; [|discriminate|discriminate].
      injection Hn as Heq. subst m. lia. }
    unfold main, parseArguments. cbn [tl parseArguments_loop String.eqb Ascii.eqb Bool.eqb].
    rewrite Hn. cbn [bind].
    rewrite run_try_catch.
    rewrite (run_seq U _ _ gen tt) by now apply simulate_returns.
    cbn [run result_of events_of gen_of fst snd]. now rewrite app_nil_r. }
  split; [|split; [|split; [exact Haccept|split; [|reflexivity]]]].
  - destruct (stoi_cases value) as [[m [Hm Hv]]|[Hv|Hv]]; eauto.
  - intros e He.
    unfold main, parseArguments. cbn [tl parseArguments_loop String.eqb Ascii.eqb Bool.eqb].
    rewrite He. reflexivity.
  - intros n Hn Hle. rewrite (Haccept n Hn).
    assert (Hbatch : forall b g,
      run U (runSimulation (mkLogger INFO) n b) g =
      ([Stdout (summary n 0 (double_div (double_of_int 0) (double_of_int n)))],
       Ok tt, g)).
    { intros b g.
      rewrite (run_runSimulation U U_range) by (unfold INT_MAX; lia).
      replace (Z.to_nat n) with O by lia. reflexivity. }
    unfold simulate, Logger_info.
    rewrite (run_seq U _ _ gen tt) by reflexivity.
    cbn [Logger_log logLevel LogLevel_rank Z.leb Z.compare emit run
         events_of result_of gen_of fst snd app].
    rewrite (run_seq U _ _ gen tt) by now rewrite Hbatch.
    rewrite Hbatch. cbn [events_of result_of gen_of fst snd app].
    rewrite (run_seq U _ _ gen tt) by reflexivity.
    cbn [Logger_log logLevel LogLevel_rank Z.leb Z.compare emit run
         events_of result_of gen_of fst snd app].
    rewrite Hbatch. reflexivity.
Qed.

End Main.

(** ** Win probabilities *)

Local Open Scope Q_scope.

(** A program that always returns a boolean is a coin: its expectations
    are those of its two results. *)
Lemma expect_two_point (p : Sim bool) (f : Result bool -> Q) :
  Forall (fun x => exists won, snd x = Ok won) (outcomes p) ->
  expect p f ==
  prob p is_Ok_true * f (Ok true) + (1 - prob p is_Ok_true) * f (Ok false).
Proof.
  unfold prob.
  induction p as [a|e| |max k IH|ev k IH]; cbn [outcomes expect]; intros H.
  - destruct a; cbn [is_Ok_true]; ring.
  - apply Forall_inv in H. destruct H as [won [=]].
  - apply Forall_inv in H. destruct H as [won [=]].
  - destruct (max <? 0)%Z eqn:Hmax.
    { apply Forall_inv in H. destruct H as [won [=]]. }
    apply Z.ltb_ge in Hmax.
    assert (Hk : forall r, In r (draws max) ->
              expect (k r) f ==
              expect (k r) (fun res => if is_Ok_true res then 1 else 0) * f (Ok true)
              + (1 - expect (k r) (fun res => if is_Ok_true res then 1 else 0))
                * f (Ok false)).
    { intros r Hr. apply IH. rewrite Forall_forall in *. intros x Hx.
      apply (H (Drawn max r :: fst x, snd x)).
      apply in_flat_map. exists r. split; [exact Hr|].
      apply in_map_iff. now exists x. }
    rewrite (Qsum_map_ext _ _ _ Hk).
    rewrite Qsum_map_plus.
    rewrite (Qsum_map_ext
               (fun r => expect (k r) (fun res => if is_Ok_true res then 1 else 0)
                         * f (Ok true))
               (fun r => f (Ok true)
                         * expect (k r) (fun res => if is_Ok_true res then 1 else 0)))
      by (intros; ring).
    rewrite (Qsum_map_ext
               (fun r => (1 - expect (k r) (fun res => if is_Ok_true res then 1 else 0))
                         * f (Ok false))
               (fun r => f (Ok false)
                         + (- f (Ok false))
                           * expect (k r) (fun res => if is_Ok_true res then 1 else 0)))
      by (intros; ring).
    rewrite Qsum_map_scale, Qsum_map_plus, Qsum_map_scale, Qsum_map_const.
    rewrite draws_length by assumption.
    field. intros H0. pose proof (inject_Z_pos (max + 1) ltac:(lia)). lra.
  - apply IH. rewrite Forall_forall in *. intros x Hx.
    apply (H (ev :: fst x, snd x)). apply in_map_iff. now exists x.
Qed.

Lemma trial_win_probability (logger : Logger) (changePlayerDecision : bool) :
  prob (simulateSingleGame logger changePlayerDecision) is_Ok_true
  == win_probability changePlayerDecision.
Proof.
  destruct logger as [[ | | ]], changePlayerDecision; vm_compute; reflexivity.
Qed.

(** The law of one trial. *)
Lemma expect_trial (logger : Logger) (b : bool) (f : Result bool -> Q) :
  expect (simulateSingleGame logger b) f ==
  win_probability b * f (Ok true) + (1 - win_probability b) * f (Ok false).
Proof.
  rewrite expect_two_point by apply trial_outcomes_return.
  now rewrite trial_win_probability.
Qed.

Section BatchLaw.

Variable logger : Logger.
Variable n : Z.
Variable b : bool.
Hypothesis n_int : (n <= INT_MAX)%Z.

Let p : Q := win_probability b.

Lemma expect_loop_step (i winCount : Z) (f : Result Z -> Q) :
  (i < n)%Z -> (INT_MIN <= i)%Z -> (0 <= winCount)%Z -> (winCount + 1 <= INT_MAX)%Z ->
  expect (runSimulation_loop logger n b i winCount) f ==
  p * expect (runSimulation_loop logger n b (i + 1) (winCount + 1)) f
  + (1 - p) * expect (runSimulation_loop logger n b (i + 1) winCount) f.
Proof.
  intros Hi Hlo Hw Hmax.
  rewrite runSimulation_loop_step by assumption.
  rewrite expect_bind, expect_trial. fold p.
  cbn [int_of_bool].
  rewrite !int_add_in_range by (unfold INT_MIN in *; lia).
  cbn [bind].
  replace (i + 1 <=? INT_MAX)%Z with true by (symmetry; apply Z.leb_le; lia).
  now rewrite Z.add_0_r.
Qed.

(** The batch returns with probability one. *)
Lemma loop_returns_surely (count : nat) :
  forall i winCount,
    count = Z.to_nat (n - i) -> (INT_MIN <= i)%Z ->
    (0 <= winCount)%Z -> (winCount + Z.of_nat count <= INT_MAX)%Z ->
    expect (runSimulation_loop logger n b i winCount)
           (fun res => match res with Ok _ => 0 | _ => 1 end) == 0.
Proof.
  induction count as [|count IH]; intros i winCount Hcount Hlo Hw Hmax.
  - rewrite runSimulation_loop_done by lia. reflexivity.
  - rewrite expect_loop_step by lia.
    rewrite !IH by lia. ring.
Qed.

(** The first two centred moments of the win count of the remaining
    trials: mean [count * p], variance [count * p * (1 - p)]. *)
Lemma loop_moments (count : nat) :
  forall i winCount,
    count = Z.to_nat (n - i) -> (INT_MIN <= i)%Z ->
    (0 <= winCount)%Z -> (winCount + Z.of_nat count <= INT_MAX)%Z ->
    let centred res :=
      winCount_of res - (inject_Z winCount + inject_Z (Z.of_nat count) * p) in
    expect (runSimulation_loop logger n b i winCount) centred == 0 /\
    expect (runSimulation_loop logger n b i winCount)
           (fun res => centred res * centred res)
    == inject_Z (Z.of_nat count) * p * (1 - p).
Proof.
  induction count as [|count IH]; intros i winCount Hcount Hlo Hw Hmax; cbv zeta.
  - rewrite runSimulation_loop_done by lia. cbn [expect winCount_of].
    change (inject_Z (Z.of_nat 0)) with 0. split; ring.
  - rewrite (expect_loop_step i winCount
               (fun res => winCount_of res
                           - (inject_Z winCount + inject_Z (Z.of_nat (S count)) * p)))
      by lia.
    rewrite (expect_loop_step i winCount
               (fun res => (winCount_of res
                            - (inject_Z winCount + inject_Z (Z.of_nat (S count)) * p))
                           * (winCount_of res
                              - (inject_Z winCount + inject_Z (Z.of_nat (S count)) * p))))
      by lia.
    destruct (IH (i + 1)%Z (winCount + 1)%Z ltac:(lia) ltac:(lia) ltac:(lia) ltac:(lia))
      as [Hwin1 Hwin2].
    destruct (IH (i + 1)%Z winCount ltac:(lia) ltac:(lia) ltac:(lia) ltac:(lia))
      as [Hlose1 Hlose2].
    cbv zeta in *.
    set (loopWin := runSimulation_loop logger n b (i + 1) (winCount + 1)) in *.
    set (loopLose := runSimulation_loop logger n b (i + 1) winCount) in *.
    set (N := inject_Z (Z.of_nat count)) in *.
    assert (HN : inject_Z (Z.of_nat (S count)) == N + 1).
    { subst N. rewrite Nat2Z.inj_succ. unfold Z.succ. now rewrite inject_Z_plus. }
    assert (HW : inject_Z (winCount + 1) == inject_Z winCount + 1)
      by now rewrite inject_Z_plus.
    pose (yWin := fun res : Result Z =>
                    winCount_of res - (inject_Z (winCount + 1) + N * p)).
    pose (yLose := fun res : Result Z =>
                     winCount_of res - (inject_Z winCount + N * p)).
    assert (Hw1 : expect loopWin yWin == 0) by exact Hwin1.
    assert (Hw2 : expect loopWin (fun res => yWin res * yWin res) == N * p * (1 - p))
      by exact Hwin2.
    assert (Hl1 : expect loopLose yLose == 0) by exact Hlose1.
    assert (Hl2 : expect loopLose (fun res => yLose res * yLose res) == N * p * (1 - p))
      by exact Hlose2.
    clear Hwin1 Hwin2 Hlose1 Hlose2.
    split.
    + rewrite (expect_ext loopWin _ (fun res => yWin res + (1 - p)))
        by (intros res; subst yWin; cbv beta; rewrite HN, HW; ring).
      rewrite (expect_ext loopLose _ (fun res => yLose res + (- p)))
        by (intros res; subst yLose; cbv beta; rewrite HN; ring).
      rewrite !expect_plus, !expect_const, Hw1, Hl1. ring.
    + rewrite (expect_ext loopWin _
                 (fun res => yWin res * yWin res
                             + ((2 * (1 - p)) * yWin res + (1 - p) * (1 - p))))
        by (intros res; subst yWin; cbv beta; rewrite HN, HW; ring).
      rewrite (expect_ext loopLose _
                 (fun res => yLose res * yLose res
                             + ((2 * (- p)) * yLose res + p * p)))
        by (intros res; subst yLose; cbv beta; rewrite HN; ring).
      rewrite !expect_plus, !expect_scale, !expect_const.
      rewrite Hw1, Hw2, Hl1, Hl2, HN. ring.
Qed.

End BatchLaw.

Lemma square_nonneg (x : Q) : 0 <= x * x.
Proof.
  destruct (Qlt_le_dec x 0) as [H|H].
  - setoid_replace (x * x) with ((- x) * (- x)) by ring.
    apply Qmult_le_0_compat; lra.
  - now apply Qmult_le_0_compat.
Qed.

Lemma square_Qabs (x : Q) : Qabs x * Qabs x == x * x.
Proof.
  rewrite <- Qabs_Qmult. apply Qabs_pos, square_nonneg.
Qed.

(** Chebyshev's inequality, at one result. *)
Lemma deviation_below_square (K eps p W : Q) :
  0 < K -> 0 < eps -> eps <= Qabs (W / K - p) ->
  1 <= (W - K * p) * (W - K * p) / (K * K * (eps * eps)).
Proof.
  intros HK Heps Hdev.
  assert (Hsq : eps * eps <= (W / K - p) * (W / K - p)).
  { apply Qle_trans with (Qabs (W / K - p) * Qabs (W / K - p));
      [|rewrite square_Qabs; apply Qle_refl].
    apply Qle_trans with (eps * Qabs (W / K - p)).
    - apply Qmult_le_l; assumption.
    - apply Qmult_le_compat_r; [exact Hdev|lra]. }
  assert (Hpos : 0 < eps * eps) by (apply Qmult_lt_0_compat; assumption).
  setoid_replace ((W - K * p) * (W - K * p) / (K * K * (eps * eps)))
    with ((W / K - p) * (W / K - p) / (eps * eps))
    by (field; split; lra).
  apply Qle_shift_div_l; [exact Hpos|lra].
Qed.

(** Chebyshev's inequality for a batch of [n] trials: the probability that
    it does not return, or that the quotient of its win count by [n] is at
    least [eps] away from the win probability of a trial, is at most
    [2 / (9 n eps^2)]. *)
Lemma batch_deviation_bound (logger : Logger) (b : bool) (n : Z) (eps : Q) :
  (0 < n <= INT_MAX)%Z -> 0 < eps ->
  prob (runSimulation_loop logger n b 0 0) (deviates n (win_probability b) eps)
  <= (2 # 9) / (inject_Z n * (eps * eps)).
Proof.
  intros Hn Heps.
  pose (K := inject_Z n).
  assert (HK : 0 < K) by (apply inject_Z_pos; lia).
  pose (p := win_probability b).
  pose (centred := fun res : Result Z =>
                     winCount_of res - (inject_Z 0 + inject_Z (Z.of_nat (Z.to_nat n)) * p)).
  pose (failed := fun res : Result Z => match res with Ok _ => 0 | _ => 1 end).
  assert (Hfail : expect (runSimulation_loop logger n b 0 0) failed == 0).
  { apply (loop_returns_surely logger n b ltac:(lia) (Z.to_nat n));
      unfold INT_MIN; lia. }
  destruct (loop_moments logger n b ltac:(lia) (Z.to_nat n) 0%Z 0%Z)
    as [_ Hvar]; try (unfold INT_MIN; lia).
  cbv zeta in Hvar. fold p in Hvar. fold centred in Hvar.
  assert (Hvar' : expect (runSimulation_loop logger n b 0 0)
                         (fun res => centred res * centred res)
                  == K * p * (1 - p)).
  { eapply Qeq_trans; [exact Hvar|]. rewrite Z2Nat.id by lia. reflexivity. }
  unfold prob.
  apply Qle_trans with
    (expect (runSimulation_loop logger n b 0 0)
       (fun res => failed res
                   + (1 / (K * K * (eps * eps))) * (centred res * centred res))).
  - apply expect_le. intros res.
    assert (Hnonneg : 0 <= (1 / (K * K * (eps * eps))) * (centred res * centred res)).
    { apply Qmult_le_0_compat; [|apply square_nonneg].
      apply Qle_shift_div_l; [|lra].
      repeat apply Qmult_lt_0_compat; assumption. }
    destruct res as [winCount| |]; cbn [deviates failed]; try lra.
    destruct (Qle_bool eps (Qabs (inject_Z winCount / inject_Z n - win_probability b)))
      eqn:Hdev; [|lra].
    apply Qle_bool_iff in Hdev.
    pose proof (deviation_below_square K eps p (inject_Z winCount) HK Heps Hdev) as H.
    subst centred. cbv beta. cbn [winCount_of].
    rewrite Z2Nat.id by lia. fold K.
    setoid_replace (1 / (K * K * (eps * eps))
                    * ((inject_Z winCount - (inject_Z 0 + K * p))
                       * (inject_Z winCount - (inject_Z 0 + K * p))))
      with ((inject_Z winCount - K * p) * (inject_Z winCount - K * p)
            / (K * K * (eps * eps))).
    + lra.
    + change (inject_Z 0) with 0. field. split; lra.
  - rewrite expect_plus, expect_scale, Hfail, Hvar'.
    assert (Hpq : p * (1 - p) == 2 # 9) by (subst p; destruct b; reflexivity).
    setoid_replace (0 + 1 / (K * K * (eps * eps)) * (K * p * (1 - p)))
      with ((p * (1 - p)) / (K * (eps * eps)))
      by (field; split; lra).
    rewrite Hpq. apply Qle_refl.
Qed.

(** C1: a trial under the stay strategy returns [true] with probability
    1/3 and under the switch strategy with probability 2/3, when each draw
    is uniform on its range and independent of the earlier ones.
    Consequently the win ratio of a batch converges in probability to
    these values: for a batch of [n] trials ([n] a positive [int]) the
    probability that the batch does not return, or that the exact quotient
    of its win count by [n] is at least [eps] away from the win
    probability, is at most [2 / (9 n eps^2)], hence below any [delta > 0]
    for every [n] from some [N] on. *)
Theorem trial_win_probabilities (logger : Logger) :
  prob (simulateSingleGame logger false) is_Ok_true == 1 # 3 /\
  prob (simulateSingleGame logger true) is_Ok_true == 2 # 3 /\
  (forall (b : bool) (n : Z) (eps : Q),
     (0 < n <= INT_MAX)%Z -> 0 < eps ->
     prob (runSimulation_loop logger n b 0 0) (deviates n (win_probability b) eps)
     <= (2 # 9) / (inject_Z n * (eps * eps))) /\
  (forall (b : bool) (eps delta : Q),
     0 < eps -> 0 < delta ->
     exists N : Z,
       forall n, (0 < n)%Z -> (N <= n <= INT_MAX)%Z ->
         prob (runSimulation_loop logger n b 0 0)
              (deviates n (win_probability b) eps)
         <= delta).
Proof.
  split; [apply (trial_win_probability logger false)|].
  split; [apply (trial_win_probability logger true)|].
  split; [intros b n eps; apply batch_deviation_bound|].
  intros b eps delta Heps Hdelta.
  pose (c := (2 # 9) / (eps * eps * delta)).
  exists (Qceiling c). intros n Hpos Hn.
  assert (Hee : 0 < eps * eps) by (apply Qmult_lt_0_compat; assumption).
  assert (Hc : c <= inject_Z n).
  { apply Qle_trans with (inject_Z (Qceiling c)); [apply Qle_ceiling|].
    rewrite <- Zle_Qle. lia. }
  assert (HK : 0 < inject_Z n) by (apply inject_Z_pos; lia).
  eapply Qle_trans; [apply batch_deviation_bound; [lia|exact Heps]|].
  apply Qle_shift_div_r; [apply Qmult_lt_0_compat; assumption|].
  assert (Hc' : c * (eps * eps * delta) == 2 # 9)
    by (subst c; field; split; lra).
  rewrite <- Hc'.
  setoid_replace (delta * (inject_Z n * (eps * eps)))
    with (inject_Z n * (eps * eps * delta)) by ring.
  apply Qmult_le_compat_r; [exact Hc|].
  apply Qlt_le_weak, Qmult_lt_0_compat; assumption.
Qed.

Local Close Scope Q_scope.

(* ===================================================================== *)
(** * Executions on the linear congruential generator *)
(* ===================================================================== *)

Lemma trial_win_probabilities_witness :
  (0 < 100 <= INT_MAX) /\ (0 < 1 # 10)%Q /\
  (prob (runSimulation_loop (mkLogger INFO) 100 true 0 0)
        (deviates 100 (win_probability true) (1 # 10))
   <= (2 # 9) / (inject_Z 100 * ((1 # 10) * (1 # 10))))%Q.
Proof.
  split; [unfold INT_MAX; lia|]. split; [reflexivity|].
  apply (proj1 (proj2 (proj2 (trial_win_probabilities (mkLogger INFO))))).
  - unfold INT_MAX; lia.
  - reflexivity.
Defined.

(** C2 as stated fails: in the stay trial from seed 42 the first draw is 0,
    and the board after the prize assignment has no selected door. *)
Lemma board_invariant_fails_after_prize_assignment :
  ~ Forall (fun pb => board_invariant (snd pb))
      (boards_of
         (events_of
            (run lcg_uniform (simulateSingleGame (mkLogger INFO) false) 42))).
Proof.
  intros H.
  set (boards := boards_of _) in H. vm_compute in boards. subst boards.
  apply Forall_inv in H. destruct H as [_ [H _]].
  vm_compute in H. discriminate H.
Qed.

Lemma trial_board_invariant_witness :
  (forall a b gen, a <= b -> a <= fst (lcg_uniform a b gen) <= b) /\
  let x := run lcg_uniform (simulateSingleGame (mkLogger DEBUG) true) 42 in
  map fst (boards_of (events_of x)) = phases_of_trial true /\
  Forall (fun pb => board_invariant_at (fst pb) (snd pb))
         (boards_of (events_of x)).
Proof.
  split; [exact lcg_uniform_range|].
  exact (trial_board_invariant lcg_uniform lcg_uniform_range
           (mkLogger DEBUG) true 42).
Defined.

Lemma reveal_and_switch_candidates_exist_witness :
  (forall a b gen, a <= b -> a <= fst (lcg_uniform a b gen) <= b) /\
  exists won,
    result_of (run lcg_uniform (simulateSingleGame (mkLogger INFO) true) 7)
    = Ok won.
Proof.
  split; [exact lcg_uniform_range|].
  exact (proj1 (reveal_and_switch_candidates_exist lcg_uniform lcg_uniform_range
                  (mkLogger INFO) true 7)).
Defined.

(** C4 as stated fails: [--simulations 0] is accepted; no trial runs, both
    batches report the ratio NaN and the exit code is [EXIT_SUCCESS]. *)
Lemma simulations_zero_is_accepted :
  run lcg_uniform (main ["simulator"; "--simulations"; "0"]) 42 =
  ([Stdout (Text "Running simulation where the player does not change the door:");
    Stdout (summary 0 0 S754_nan);
    Stdout (Text "Running simulation where the player changes the door:");
    Stdout (summary 0 0 S754_nan)],
   Ok EXIT_SUCCESS, 42).
Proof. vm_compute. reflexivity. Qed.

Lemma simulations_value_rejected_iff_stoi_throws_witness :
  (forall a b gen, a <= b -> a <= fst (lcg_uniform a b gen) <= b) /\
  (forall e, stoi "many" = Throw e ->
     run lcg_uniform (main ["simulator"; "--simulations"; "many"]) 42 =
     ([Stderr (Text ("Error: " ++ what_of e)%string);
       Stderr (Text ("Usage: " ++ "simulator"
                     ++ " [--simulations <number>] [--verbose]")%string)],
      Ok EXIT_FAILURE, 42)).
Proof.
  split; [exact lcg_uniform_range|].
  exact (proj1 (proj2 (simulations_value_rejected_iff_stoi_throws
                         lcg_uniform lcg_uniform_range "simulator" "many" 42))).
Defined.

Lemma chooseRandomIndex_contract_witness :
  (forall a b gen, a <= b -> a <= fst (lcg_uniform a b gen) <= b) /\
  size pickedPrizeBoard <= INT_MAX /\
  StronglySorted Z.lt (collectIndices revealCondition pickedPrizeBoard 0).
Proof.
  split; [exact lcg_uniform_range|].
  split; [unfold INT_MAX; cbn; lia|].
  refine (proj1 (chooseRandomIndex_contract lcg_uniform lcg_uniform_range
                   pickedPrizeBoard revealCondition _)).
  unfold INT_MAX; cbn; lia.
Defined.

Lemma reselection_takes_the_remaining_door_witness :
  (forall a b gen, a <= b -> a <= fst (lcg_uniform a b gen) <= b) /\
  let x := run lcg_uniform (simulateSingleGame (mkLogger INFO) true) 42 in
  exists board1 board2 board3 board4 oldChoice newChoice,
    boards_of (events_of x) =
      [(PrizeAssigned, board1); (InitialSelected, board2);
       (Revealed, board3); (Reselected, board4)] /\
    collectIndices selected board3 0 = [oldChoice] /\
    collectIndices switchCondition board3 0 = [newChoice] /\
    oldChoice <> newChoice /\
    board4 =
      update_nth
        (update_nth board3 (Z.to_nat oldChoice) (set_selected false))
        (Z.to_nat newChoice) (set_selected true) /\
    collectIndices selected board4 0 = [newChoice].
Proof.
  split; [exact lcg_uniform_range|].
  exact (reselection_takes_the_remaining_door lcg_uniform lcg_uniform_range
           (mkLogger INFO) 42).
Defined.

Lemma runSimulation_counts_wins_witness :
  (forall a b gen, a <= b -> a <= fst (lcg_uniform a b gen) <= b) /\
  0 < 5 <= INT_MAX /\
  0 <= wins_of (fst (consecutiveTrials lcg_uniform (mkLogger INFO) true
                       (Z.to_nat 5) 42)) <= 5.
Proof.
  split; [exact lcg_uniform_range|].
  split; [unfold INT_MAX; lia|].
  refine (proj1 (proj2 (proj2 (runSimulation_counts_wins lcg_uniform
                   lcg_uniform_range (mkLogger INFO) 5 true 42 _)))).
  unfold INT_MAX; lia.
Defined.

Lemma simulate_runs_stay_then_switch_witness :
  (forall a b gen, a <= b -> a <= fst (lcg_uniform a b gen) <= b) /\
  3 <= INT_MAX /\
  result_of (run lcg_uniform (runSimulation (mkLogger INFO) 3 false) 42) = Ok tt.
Proof.
  split; [exact lcg_uniform_range|].
  split; [unfold INT_MAX; lia|].
  refine (proj1 (simulate_runs_stay_then_switch lcg_uniform lcg_uniform_range
                   (mkLogger INFO) 3 42 _)).
  unfold INT_MAX; lia.
Defined.

Lemma single_trial_batch_ratio_exact_witness :
  (forall a b gen, a <= b -> a <= fst (lcg_uniform a b gen) <= b) /\
  let trials := consecutiveTrials lcg_uniform (mkLogger INFO) false 1 42 in
  let winCount := wins_of (fst trials) in
  let winRatio := double_div (double_of_int winCount) (double_of_int 1) in
  winCount = 0 /\ winRatio = double_zero \/
  winCount = 1 /\ winRatio = double_one.
Proof.
  split; [exact lcg_uniform_range|].
  exact (proj1 (single_trial_batch_ratio_exact lcg_uniform lcg_uniform_range
                  (mkLogger INFO) false 42)).
Defined.

Lemma trial_result_determined_by_initial_pick_witness :
  (forall a b gen, a <= b -> a <= fst (lcg_uniform a b gen) <= b) /\
  let x := run lcg_uniform (simulateSingleGame (mkLogger INFO) false) 42 in
  exists carIndex playerChoiceIndex laterDraws board1 board2 rest,
    draws_of (events_of x) = carIndex :: playerChoiceIndex :: laterDraws /\
    boards_of (events_of x) =
      (PrizeAssigned, board1) :: (InitialSelected, board2) :: rest /\
    collectIndices hasCar board2 0 = [carIndex] /\
    collectIndices selected board2 0 = [playerChoiceIndex] /\
    result_of x = Ok (playerChoiceIndex =? carIndex).
Proof.
  split; [exact lcg_uniform_range|].
  exact (trial_result_determined_by_initial_pick lcg_uniform lcg_uniform_range
           (mkLogger INFO) false 42).
Defined.

(* ===================================================================== *)
(** * Further properties *)
(* ===================================================================== *)

(** ** Executions follow the random source *)

Lemma draw_log_app (events events' : list Event) :
  draw_log (events ++ events') = draw_log events ++ draw_log events'.
Proof.
  induction events as [|[line|line|phase board|max value] events IH]; cbn;
    now rewrite ?IH.
Qed.

Lemma draw_log_without_stdout (events : list Event) :
  draw_log (without_stdout events) = draw_log events.
Proof.
  induction events as [|[line|line|phase board|max value] events IH]; cbn;
    now rewrite ?IH.
Qed.

Section Follow.

Context {Gen : Type} (U : Z -> Z -> Gen -> Z * Gen).

Hypothesis U_range :
  forall a b gen, a <= b -> a <= fst (U a b gen) <= b.

(** The draws an execution records are those of the random source, and the
    source is left in the state after them. *)
Lemma run_follows {A : Type} (p : Sim A) (gen : Gen) :
  records_no_draw p = true ->
  follows U gen (draw_log (events_of (run U p gen))) /\
  gen_of (run U p gen) = gen_after U gen (draw_log (events_of (run U p gen))).
Proof.
  revert gen. induction p as [a|e| |max k IH|ev k IH]; intros gen Hp; cbn.
  - now split.
  - now split.
  - now split.
  - destruct (max <? 0) eqn:Hmax; [now split|]. apply Z.ltb_ge in Hmax.
    cbn [records_no_draw] in Hp. rewrite forallb_forall in Hp.
    pose proof (U_range 0 max gen Hmax) as Hr.
    destruct (U 0 max gen) as [r gen'] eqn:HU. cbn [fst] in Hr.
    specialize (IH r gen' (Hp r (proj2 (in_draws max r) Hr))).
    unfold events_of, gen_of in *.
    destruct (run U (k r) gen') as [[events res] gen'']. cbn [fst snd] in *.
    cbn [draw_log follows gen_after]. rewrite HU. cbn [fst snd].
    destruct IH as [IH1 IH2]. now repeat split.
  - assert (Hk : records_no_draw k = true)
      by (destruct ev; cbn [records_no_draw] in Hp; congruence).
    specialize (IH gen Hk). unfold events_of, gen_of in *.
    destruct (run U k gen) as [[events res] gen']. cbn [fst snd] in *.
    destruct ev; cbn [draw_log]; try exact IH.
    cbn [records_no_draw] in Hp. discriminate Hp.
Qed.

(** The execution on a random source is the one outcome whose draws follow
    the source. *)
Lemma outcome_follows_unique {A : Type} (p : Sim A) (gen : Gen)
  (x : list Event * Result A) :
  records_no_draw p = true ->
  In x (outcomes p) -> follows U gen (draw_log (fst x)) ->
  x = (events_of (run U p gen), result_of (run U p gen)).
Proof.
  revert gen x. induction p as [a|e| |max k IH|ev k IH]; intros gen x Hp Hx Hf;
    cbn [outcomes] in Hx.
  - destruct Hx as [<-|[]]. reflexivity.
  - destruct Hx as [<-|[]]. reflexivity.
  - destruct Hx as [<-|[]]. reflexivity.
  - cbn [run]. destruct (max <? 0) eqn:Hmax.
    { destruct Hx as [<-|[]]. reflexivity. }
    cbn [records_no_draw] in Hp. rewrite forallb_forall in Hp.
    apply in_flat_map in Hx. destruct Hx as [r [Hr Hx]].
    apply in_map_iff in Hx. destruct Hx as [y [<- Hy]].
    cbn [fst snd draw_log follows] in Hf. destruct Hf as [Hval Hf].
    destruct (U 0 max gen) as [r0 gen'] eqn:HU. cbn [fst snd] in Hval, Hf.
    subst r0.
    pose proof (IH r gen' y (Hp r Hr) Hy Hf) as Hrun.
    unfold events_of, result_of in *.
    destruct (run U (k r) gen') as [[events res] gen'']. cbn [fst snd] in *.
    now subst y.
  - assert (Hk : records_no_draw k = true)
      by (destruct ev; cbn [records_no_draw] in Hp; congruence).
    apply in_map_iff in Hx. destruct Hx as [y [<- Hy]].
    assert (Hfy : follows U gen (draw_log (fst y))).
    { destruct ev; cbn [fst draw_log] in Hf; try exact Hf.
      cbn [records_no_draw] in Hp. discriminate Hp. }
    pose proof (IH gen y Hk Hy Hfy) as Hrun.
    cbn [run]. unfold events_of, result_of in *.
    destruct (run U k gen) as [[events res] gen']. cbn [fst snd] in *.
    now subst y.
Qed.

End Follow.

Lemma trial_records_no_draw (logger : Logger) (changePlayerDecision : bool) :
  records_no_draw (simulateSingleGame logger changePlayerDecision) = true.
Proof. destruct logger as [[ | | ]], changePlayerDecision; vm_compute; reflexivity. Qed.

(** ** More on one trial *)

(** The draws of a trial on every answer: the prize and the pick among
    three, the reveal among two doors when the pick is the prize and one
    otherwise, the reselection among one. *)
Lemma trial_draw_log_outcomes (logger : Logger) (changePlayerDecision : bool) :
  Forall (fun x =>
            exists carIndex playerChoiceIndex candidates opened,
              draw_log (fst x) =
                (2, carIndex) :: (2, playerChoiceIndex) :: (candidates, opened)
                  :: (if changePlayerDecision then [(0, 0)] else []) /\
              candidates = (if playerChoiceIndex =? carIndex then 1 else 0) /\
              snd x = Ok (xorb changePlayerDecision
                               (playerChoiceIndex =? carIndex)))
         (outcomes (simulateSingleGame logger changePlayerDecision)).
Proof.
  for_every_trial logger changePlayerDecision.
  all: do 4 eexists; split; [reflexivity|split; reflexivity].
Qed.

Section TrialOnSource.

Context {Gen : Type} (U : Z -> Z -> Gen -> Z * Gen).
Hypothesis U_range :
  forall a b gen, a <= b -> a <= fst (U a b gen) <= b.

Lemma trial_from_source (logger : Logger) (changePlayerDecision : bool) (gen : Gen) :
  let carIndex := fst (U 0 2 gen) in
  let playerChoiceIndex := fst (U 0 2 (snd (U 0 2 gen))) in
  let x := run U (simulateSingleGame logger changePlayerDecision) gen in
  map fst (draw_log (events_of x)) =
    2 :: 2 :: (if playerChoiceIndex =? carIndex then 1 else 0)
      :: (if changePlayerDecision then [0] else []) /\
  result_of x = Ok (xorb changePlayerDecision (playerChoiceIndex =? carIndex)).
Proof.
  cbv zeta.
  pose proof (run_Forall U U_range _ _
                (trial_draw_log_outcomes logger changePlayerDecision) gen) as H.
  cbn beta in H. destruct H as [c [p [m [o [Hlog [Hm Hres]]]]]].
  cbn [fst snd] in Hlog, Hres. subst m.
  destruct (run_follows U U_range _ gen
              (trial_records_no_draw logger changePlayerDecision)) as [Hf _].
  rewrite Hlog in Hf. cbn [follows] in Hf.
  destruct Hf as [Hc [Hp _]]. subst c p.
  rewrite Hlog, Hres. split; [|reflexivity].
  now destruct changePlayerDecision.
Qed.

(** X1: from the same state of the random source, the stay trial and the
    switch trial draw the same prize index and the same pick, and exactly
    one of them wins: stay when the two are equal, switch otherwise. *)
Theorem strategies_are_complementary (logger logger' : Logger) (gen : Gen) :
  let carIndex := fst (U 0 2 gen) in
  let playerChoiceIndex := fst (U 0 2 (snd (U 0 2 gen))) in
  result_of (run U (simulateSingleGame logger false) gen)
    = Ok (playerChoiceIndex =? carIndex) /\
  result_of (run U (simulateSingleGame logger' true) gen)
    = Ok (negb (playerChoiceIndex =? carIndex)).
Proof.
  cbv zeta. split.
  - apply (trial_from_source logger false gen).
  - apply (trial_from_source logger' true gen).
Qed.

(** X2: a stay trial makes three draws and a switch trial four: the prize
    and the pick on [0..2]; the reveal on [0..1] when the pick is the prize
    and on [0..0] otherwise; the reselection on [0..0]. *)
Theorem trial_draw_ranges
  (logger : Logger) (changePlayerDecision : bool) (gen : Gen) :
  let carIndex := fst (U 0 2 gen) in
  let playerChoiceIndex := fst (U 0 2 (snd (U 0 2 gen))) in
  map fst (draw_log
             (events_of (run U (simulateSingleGame logger changePlayerDecision) gen)))
  = 2 :: 2 :: (if playerChoiceIndex =? carIndex then 1 else 0)
      :: (if changePlayerDecision then [0] else []).
Proof.
  cbv zeta. apply (trial_from_source logger changePlayerDecision gen).
Qed.

End TrialOnSource.

(** ** What a trial prints *)

Lemma without_stdout_app (events events' : list Event) :
  without_stdout (events ++ events') =
  without_stdout events ++ without_stdout events'.
Proof.
  induction events as [|[line|line|phase board|max value] events IH]; cbn;
    now rewrite ?IH.
Qed.

Lemma stdout_of_app (events events' : list Event) :
  stdout_of (events ++ events') = stdout_of events ++ stdout_of events'.
Proof.
  induction events as [|[line|line|phase board|max value] events IH]; cbn;
    now rewrite ?IH.
Qed.

(** The outcomes of a trial, up to what it prints, do not depend on the
    logger. *)
Lemma trial_outcomes_without_stdout (logger logger' : Logger) (b : bool) :
  map (fun x => (without_stdout (fst x), snd x))
      (outcomes (simulateSingleGame logger b)) =
  map (fun x => (without_stdout (fst x), snd x))
      (outcomes (simulateSingleGame logger' b)).
Proof.
  destruct logger as [[ | | ]], logger' as [[ | | ]], b; vm_compute; reflexivity.
Qed.

Section TrialOutput.

Context {Gen : Type} (U : Z -> Z -> Gen -> Z * Gen).
Hypothesis U_range :
  forall a b gen, a <= b -> a <= fst (U a b gen) <= b.

(** X3: unless the level of the logger is [DEBUG], a trial writes nothing
    to [std::cout]. *)
Theorem trial_quiet_unless_debug
  (logger : Logger) (changePlayerDecision : bool) (gen : Gen) :
  logLevel logger <> DEBUG ->
  stdout_of (events_of (run U (simulateSingleGame logger changePlayerDecision) gen))
  = [].
Proof.
  intros Hlevel.
  apply (run_Forall U U_range _ (fun x => stdout_of (fst x) = [])).
  destruct logger as [[ | | ]]; [now contradiction Hlevel| |];
    destruct changePlayerDecision; enumerate_outcomes; reflexivity.
Qed.


Lemma trial_logger_independent
  (logger logger' : Logger) (changePlayerDecision : bool) (gen : Gen) :
  let x := run U (simulateSingleGame logger changePlayerDecision) gen in
  let x' := run U (simulateSingleGame logger' changePlayerDecision) gen in
  without_stdout (events_of x) = without_stdout (events_of x') /\
  result_of x = result_of x'.
Proof.
  cbv zeta.
  set (p := simulateSingleGame logger changePlayerDecision).
  set (p' := simulateSingleGame logger' changePlayerDecision).
  destruct (run_follows U U_range p gen
              (trial_records_no_draw logger changePlayerDecision)) as [Hf _].
  assert (Hin : In (without_stdout (events_of (run U p gen)), result_of (run U p gen))
                   (map (fun x => (without_stdout (fst x), snd x)) (outcomes p'))).
  { unfold p'.
    rewrite <- (trial_outcomes_without_stdout logger logger' changePlayerDecision).
    apply in_map_iff. eexists. split; [|apply (run_outcome U U_range p gen)].
    reflexivity. }
  pose proof (outcome_follows_unique U p' gen) as Hunique.
  specialize (fun y => Hunique y (trial_records_no_draw logger' changePlayerDecision)).
  clearbody p p'.
  apply in_map_iff in Hin. destruct Hin as [y [Hy Hin]].
  injection Hy as Hevents Hres.
  assert (Hfy : follows U gen (draw_log (fst y)))
    by (rewrite <- draw_log_without_stdout, Hevents, draw_log_without_stdout;
        exact Hf).
  rewrite (Hunique y Hin Hfy) in Hevents, Hres.
  cbn [fst snd] in Hevents, Hres.
  split; now symmetry.
Qed.

(** The random source after a trial is the source after its draws. *)
Lemma trial_gen_of (logger : Logger) (changePlayerDecision : bool) (gen : Gen) :
  let x := run U (simulateSingleGame logger changePlayerDecision) gen in
  gen_of x = gen_after U gen (draw_log (without_stdout (events_of x))).
Proof.
  cbv zeta. rewrite draw_log_without_stdout.
  apply (run_follows U U_range), trial_records_no_draw.
Qed.

(** X5: the level of the logger changes what a trial prints and nothing
    else: from the same state of the random source, two loggers give the
    same draws, the same boards, the same result and leave the source in
    the same state. *)
Theorem trial_unaffected_by_logger
  (logger logger' : Logger) (changePlayerDecision : bool) (gen : Gen) :
  let x := run U (simulateSingleGame logger changePlayerDecision) gen in
  let x' := run U (simulateSingleGame logger' changePlayerDecision) gen in
  without_stdout (events_of x) = without_stdout (events_of x') /\
  result_of x = result_of x' /\
  gen_of x = gen_of x'.
Proof.
  cbv zeta.
  destruct (trial_logger_independent logger logger' changePlayerDecision gen)
    as [Hevents Hres].
  split; [exact Hevents|]. split; [exact Hres|].
  rewrite (trial_gen_of logger), (trial_gen_of logger').
  now rewrite Hevents.
Qed.

End TrialOutput.

(** ** More on batches *)

Lemma trial_counts_outcomes (logger : Logger) (b : bool) :
  Forall (fun x =>
            Z.of_nat (List.length (stdout_of (fst x)))
              = trial_lines (logLevel logger) b /\
            Z.of_nat (List.length (draw_log (fst x))) = (if b then 4 else 3) /\
            stderr_of (fst x) = [])
         (outcomes (simulateSingleGame logger b)).
Proof.
  for_every_trial logger b.
  all: repeat split; reflexivity.
Qed.

Section BatchOutput.

Context {Gen : Type} (U : Z -> Z -> Gen -> Z * Gen).
Hypothesis U_range :
  forall a b gen, a <= b -> a <= fst (U a b gen) <= b.

Lemma consecutiveTrials_Forall (logger : Logger) (b : bool)
  (Q : list Event * Result bool -> Prop) :
  (forall gen, Q (events_of (run U (simulateSingleGame logger b) gen),
                  result_of (run U (simulateSingleGame logger b) gen))) ->
  forall count gen, Forall Q (fst (consecutiveTrials U logger b count gen)).
Proof.
  intros HQ. induction count as [|count IH]; intros gen; cbn [consecutiveTrials].
  - constructor.
  - specialize (HQ gen). unfold events_of, result_of in HQ.
    destruct (run U (simulateSingleGame logger b) gen) as [[events res] gen'].
    specialize (IH gen').
    destruct (consecutiveTrials U logger b count gen') as [others gen''].
    cbn [fst snd] in *. now constructor.
Qed.

(** A count that adds up over concatenation adds up over the trials. *)
Lemma count_over_trials (m : list Event -> Z) (c : Z)
  (trials : list (list Event * Result bool)) :
  m [] = 0 -> (forall a b, m (a ++ b) = m a + m b) ->
  Forall (fun t => m (fst t) = c) trials ->
  m (List.concat (map fst trials)) = c * Z.of_nat (List.length trials).
Proof.
  intros Hnil Happ. induction 1 as [|t trials Ht _ IH]; cbn [map List.concat].
  - rewrite Hnil. cbn. lia.
  - rewrite Happ, Ht, IH. cbn [List.length]. lia.
Qed.

Lemma consecutiveTrials_logger_independent
  (logger logger' : Logger) (b : bool) (count : nat) (gen : Gen) :
  let t := consecutiveTrials U logger b count gen in
  let t' := consecutiveTrials U logger' b count gen in
  without_stdout (List.concat (map fst (fst t)))
    = without_stdout (List.concat (map fst (fst t'))) /\
  wins_of (fst t) = wins_of (fst t') /\
  snd t = snd t'.
Proof.
  cbv zeta. revert gen.
  induction count as [|count IH]; intros gen; cbn [consecutiveTrials].
  - now repeat split.
  - destruct (trial_logger_independent U U_range logger logger' b gen)
      as [Hevents Hres].
    assert (Hgen : gen_of (run U (simulateSingleGame logger b) gen) =
                   gen_of (run U (simulateSingleGame logger' b) gen))
      by (rewrite (trial_gen_of U U_range logger),
                  (trial_gen_of U U_range logger'); now rewrite Hevents).
    unfold events_of, result_of, gen_of in *.
    destruct (run U (simulateSingleGame logger b) gen) as [[events res] gen1].
    destruct (run U (simulateSingleGame logger' b) gen) as [[events' res'] gen1'].
    cbn [fst snd] in *. subst res' gen1'.
    specialize (IH gen1).
    destruct (consecutiveTrials U logger b count gen1) as [others gen2].
    destruct (consecutiveTrials U logger' b count gen1) as [others' gen2'].
    cbn [fst snd] in *. destruct IH as [IHe [IHw IHg]].
    cbn [map List.concat fst]. rewrite !without_stdout_app, !wins_of_cons.
    cbn [snd]. now rewrite Hevents, IHe, IHw, IHg.
Qed.

(** X6: the level of the logger does not change a batch: from the same
    state of the random source, two loggers give the same draws and boards,
    the same win count and win ratio in the summary, and leave the source
    in the same state. *)
Theorem batch_unaffected_by_logger
  (logger logger' : Logger) (n : Z) (b : bool) (gen : Gen) :
  n <= INT_MAX ->
  exists winCount trialEvents trialEvents' gen',
    let line :=
      summary n winCount (double_div (double_of_int winCount) (double_of_int n)) in
    run U (runSimulation logger n b) gen =
      (trialEvents ++ events_of (run U (Logger_info logger line) gen'),
       Ok tt, gen') /\
    run U (runSimulation logger' n b) gen =
      (trialEvents' ++ events_of (run U (Logger_info logger' line) gen'),
       Ok tt, gen') /\
    without_stdout trialEvents = without_stdout trialEvents'.
Proof.
  intros Hn.
  destruct (consecutiveTrials_logger_independent logger logger' b (Z.to_nat n) gen)
    as [Hevents [Hwins Hgen]].
  exists (wins_of (fst (consecutiveTrials U logger b (Z.to_nat n) gen))).
  exists (List.concat (map fst (fst (consecutiveTrials U logger b (Z.to_nat n) gen)))).
  exists (List.concat (map fst (fst (consecutiveTrials U logger' b (Z.to_nat n) gen)))).
  exists (snd (consecutiveTrials U logger b (Z.to_nat n) gen)).
  cbv zeta. rewrite !(run_runSimulation U U_range) by exact Hn.
  split; [reflexivity|]. split; [|exact Hevents].
  now rewrite <- Hwins, <- Hgen.
Qed.

Lemma run_simulate_events (logger : Logger) (n : Z) (gen : Gen) :
  n <= INT_MAX ->
  let stay := run U (runSimulation logger n false) gen in
  let switch := run U (runSimulation logger n true) (gen_of stay) in
  events_of (run U (simulate logger n) gen) =
  events_of
    (run U (Logger_info logger
       (Text "Running simulation where the player does not change the door:"))
       gen)
  ++ events_of stay
  ++ events_of
       (run U (Logger_info logger
          (Text "Running simulation where the player changes the door:"))
          (gen_of stay))
  ++ events_of switch.
Proof.
  intros Hn. cbv zeta.
  assert (Hret : forall b g, result_of (run U (runSimulation logger n b) g) = Ok tt)
    by (intros b g; now rewrite (run_runSimulation U U_range)).
  unfold simulate, Logger_info.
  rewrite (run_seq U _ _ gen tt) by apply run_Logger_log.
  rewrite (proj2 (run_Logger_log U logger _ _ gen)).
  rewrite (run_seq U _ _ gen tt) by apply Hret.
  rewrite (run_seq U _ _ _ tt) by apply run_Logger_log.
  rewrite (proj2 (run_Logger_log U logger _ _ _)).
  reflexivity.
Qed.

Lemma batch_count (logger : Logger) (n : Z) (b : bool) (gen : Gen)
  (m : list Event -> Z) (c : Z) :
  n <= INT_MAX ->
  m [] = 0 -> (forall a b, m (a ++ b) = m a + m b) ->
  (forall g, m (events_of (run U (simulateSingleGame logger b) g)) = c) ->
  exists line g,
    m (events_of (run U (runSimulation logger n b) gen)) =
    c * Z.max 0 n + m (events_of (run U (Logger_info logger line) g)).
Proof.
  intros Hn Hnil Happ Htrial.
  rewrite (run_runSimulation U U_range) by exact Hn.
  cbn [events_of fst]. do 2 eexists. rewrite Happ.
  rewrite (count_over_trials m c); [|exact Hnil|exact Happ|].
  - destruct (consecutiveTrials_return U U_range logger b (Z.to_nat n) gen)
      as [Hlen _].
    rewrite Hlen. replace (Z.of_nat (Z.to_nat n)) with (Z.max 0 n) by lia.
    reflexivity.
  - apply (consecutiveTrials_Forall logger b (fun t => m (fst t) = c)).
    exact Htrial.
Qed.

Lemma Logger_info_lines (logger : Logger) (line : Message) (gen : Gen) :
  Z.of_nat (List.length (stdout_of (events_of (run U (Logger_info logger line) gen))))
  = (match logLevel logger with WARN => 0 | _ => 1 end) /\
  draw_log (events_of (run U (Logger_info logger line) gen)) = [] /\
  stderr_of (events_of (run U (Logger_info logger line) gen)) = [].
Proof. destruct logger as [[ | | ]]; repeat split; reflexivity. Qed.

Lemma simulate_stderr_empty (logger : Logger) (n : Z) (gen : Gen) :
  n <= INT_MAX ->
  stderr_of (events_of (run U (simulate logger n) gen)) = [].
Proof.
  intros Hn. rewrite (run_simulate_events logger n gen Hn).
  set (errors := fun events => Z.of_nat (List.length (stderr_of events))).
  assert (Henil : errors [] = 0) by reflexivity.
  assert (Heapp : forall a b, errors (a ++ b) = errors a + errors b).
  { intros a b. unfold errors.
    assert (H : stderr_of (a ++ b) = stderr_of a ++ stderr_of b).
    { induction a as [|[l|l|ph bd|mx v] a IH]; cbn; now rewrite ?IH. }
    rewrite H, length_app. lia. }
  assert (Hetrial : forall b g,
            errors (events_of (run U (simulateSingleGame logger b) g)) = 0).
  { intros b g. unfold errors.
    destruct (run_Forall U U_range _ _ (trial_counts_outcomes logger b) g)
      as [_ [_ H]].
    change (stderr_of (events_of (run U (simulateSingleGame logger b) g)) = [])
      in H.
    now rewrite H. }
  apply length_zero_iff_nil.
  apply Nat2Z.inj. change (Z.of_nat 0) with 0.
  fold (errors (events_of (run U (Logger_info logger
    (Text "Running simulation where the player does not change the door:")) gen)
    ++ events_of (run U (runSimulation logger n false) gen)
    ++ events_of (run U (Logger_info logger
         (Text "Running simulation where the player changes the door:"))
         (gen_of (run U (runSimulation logger n false) gen)))
    ++ events_of (run U (runSimulation logger n true)
         (gen_of (run U (runSimulation logger n false) gen))))).
  rewrite !Heapp.
  destruct (batch_count logger n false gen errors _ Hn Henil Heapp (Hetrial false))
    as [line1 [g1 ->]].
  destruct (batch_count logger n true
              (gen_of (run U (runSimulation logger n false) gen))
              errors _ Hn Henil Heapp (Hetrial true))
    as [line2 [g2 ->]].
  unfold errors. rewrite !(proj2 (proj2 (Logger_info_lines logger _ _))).
  cbn. lia.
Qed.

(** X7: with [n] trials per batch ([n] an [int]; a negative [n] counts as
    zero), [simulate] prints [17 n + 4] lines at level [DEBUG], the two
    headers and the two summaries only at level [INFO], and nothing at
    level [WARN]; it writes nothing to [std::cerr]. *)
Theorem simulate_line_count (logger : Logger) (n : Z) (gen : Gen) :
  n <= INT_MAX ->
  let events := events_of (run U (simulate logger n) gen) in
  Z.of_nat (List.length (stdout_of events)) =
    match logLevel logger with
    | DEBUG => 17 * Z.max 0 n + 4
    | INFO => 4
    | WARN => 0
    end /\
  stderr_of events = [].
Proof.
  intros Hn. cbv zeta. split; [|exact (simulate_stderr_empty logger n gen Hn)].
  rewrite (run_simulate_events logger n gen Hn).
  set (lines := fun events => Z.of_nat (List.length (stdout_of events))).
  assert (Hnil : lines [] = 0) by reflexivity.
  assert (Happ : forall a b, lines (a ++ b) = lines a + lines b)
    by (intros a b; unfold lines; rewrite stdout_of_app, length_app; lia).
  assert (Htrial : forall b g,
            lines (events_of (run U (simulateSingleGame logger b) g))
            = trial_lines (logLevel logger) b).
  { intros b g.
    apply (run_Forall U U_range _ _ (trial_counts_outcomes logger b) g). }
  fold (lines (events_of (run U (Logger_info logger
    (Text "Running simulation where the player does not change the door:")) gen)
    ++ events_of (run U (runSimulation logger n false) gen)
    ++ events_of (run U (Logger_info logger
         (Text "Running simulation where the player changes the door:"))
         (gen_of (run U (runSimulation logger n false) gen)))
    ++ events_of (run U (runSimulation logger n true)
         (gen_of (run U (runSimulation logger n false) gen))))).
  rewrite !Happ.
  destruct (batch_count logger n false gen lines _ Hn Hnil Happ (Htrial false))
    as [line1 [g1 ->]].
  destruct (batch_count logger n true
              (gen_of (run U (runSimulation logger n false) gen))
              lines _ Hn Hnil Happ (Htrial true))
    as [line2 [g2 ->]].
  unfold lines. rewrite !(proj1 (Logger_info_lines logger _ _)).
  destruct logger as [[ | | ]]; cbn [logLevel trial_lines]; lia.
Qed.

(** X8: with [n] trials per batch, [simulate] makes [7 n] draws from the
    random source: three for each stay trial and four for each switch
    trial, none for the headers and summaries. *)
Theorem simulate_draw_count (logger : Logger) (n : Z) (gen : Gen) :
  n <= INT_MAX ->
  Z.of_nat (List.length (draw_log (events_of (run U (simulate logger n) gen))))
  = 7 * Z.max 0 n.
Proof.
  intros Hn. rewrite (run_simulate_events logger n gen Hn).
  set (count := fun events => Z.of_nat (List.length (draw_log events))).
  assert (Hnil : count [] = 0) by reflexivity.
  assert (Happ : forall a b, count (a ++ b) = count a + count b)
    by (intros a b; unfold count; rewrite draw_log_app, length_app; lia).
  assert (Htrial : forall b g,
            count (events_of (run U (simulateSingleGame logger b) g))
            = if b then 4 else 3).
  { intros b g.
    apply (run_Forall U U_range _ _ (trial_counts_outcomes logger b) g). }
  fold (count (events_of (run U (Logger_info logger
      (Text "Running simulation where the player does not change the door:")) gen)
      ++ events_of (run U (runSimulation logger n false) gen)
      ++ events_of (run U (Logger_info logger
           (Text "Running simulation where the player changes the door:"))
           (gen_of (run U (runSimulation logger n false) gen)))
      ++ events_of (run U (runSimulation logger n true)
           (gen_of (run U (runSimulation logger n false) gen))))).
  rewrite !Happ.
  destruct (batch_count logger n false gen count _ Hn Hnil Happ (Htrial false))
    as [line1 [g1 ->]].
  destruct (batch_count logger n true
              (gen_of (run U (runSimulation logger n false) gen))
              count _ Hn Hnil Happ (Htrial true))
    as [line2 [g2 ->]].
  unfold count. rewrite !(proj1 (proj2 (Logger_info_lines logger _ _))).
  cbn [List.length]. lia.
Qed.

End BatchOutput.

(** ** More on the command line *)

Lemma stoi_verbose : stoi "--verbose" = Throw (invalid_argument "stoi").
Proof. reflexivity. Qed.

(** One step of the loop of [parseArguments] that does not throw is a
    [--simulations] with its value or a [--verbose]. *)
Lemma parseArguments_loop_step (arg : string) (rest : list string)
  (simulations : Z) (level : LogLevel) (res : Z * LogLevel) :
  parseArguments_loop (arg :: rest) simulations level = Ret res ->
  (arg = "--simulations" /\
   exists value rest' n,
     rest = value :: rest' /\ stoi value = Ret n /\
     INT_MIN <= n <= INT_MAX /\ value <> "--verbose" /\
     parseArguments_loop rest' n level = Ret res) \/
  (arg = "--verbose" /\ parseArguments_loop rest simulations DEBUG = Ret res).
Proof.
  cbn [parseArguments_loop]. intros H.
  destruct (String.eqb_spec arg "--simulations") as [Harg|Harg].
  - destruct rest as [|value rest'].
    + destruct (String.eqb_spec arg "--verbose") as [Hv|Hv]; [congruence|].
      discriminate H.
    + left. split; [exact Harg|].
      destruct (stoi_cases value) as [[n [Hn Hs]]|[Hs|Hs]]; rewrite Hs in H;
        cbn [bind] in H; try discriminate H.
      exists value, rest', n. repeat split; try assumption; try lia.
      intros ->. rewrite stoi_verbose in Hs. discriminate Hs.
  - right. destruct (String.eqb_spec arg "--verbose") as [Hv|Hv];
      [|discriminate H].
    split; [exact Hv|]. destruct rest; exact H.
Qed.

Lemma parseArguments_loop_simulations (value : string) (rest : list string)
  (simulations : Z) (level : LogLevel) :
  parseArguments_loop ("--simulations" :: value :: rest) simulations level =
  (n <- stoi value ;; parseArguments_loop rest n level)%sim.
Proof. reflexivity. Qed.

Lemma parseArguments_loop_verbose (rest : list string)
  (simulations : Z) (level : LogLevel) :
  parseArguments_loop ("--verbose" :: rest) simulations level =
  parseArguments_loop rest simulations DEBUG.
Proof. cbn. now destruct rest. Qed.

(** Options accepted so far leave the loop in the state they produced. *)
Lemma parseArguments_loop_app (args more : list string) :
  forall (simulations : Z) (level : LogLevel) (res : Z * LogLevel),
    parseArguments_loop args simulations level = Ret res ->
    parseArguments_loop (args ++ more) simulations level =
    parseArguments_loop more (fst res) (snd res).
Proof.
  assert (H : forall (bound : nat) (args : list string),
            (List.length args <= bound)%nat ->
            forall simulations level res,
              parseArguments_loop args simulations level = Ret res ->
              parseArguments_loop (args ++ more) simulations level =
              parseArguments_loop more (fst res) (snd res)).
  { induction bound as [|bound IH]; intros [|arg rest] Hlen simulations level res Hres;
      cbn [List.length] in Hlen; try lia.
    - injection Hres as <-. reflexivity.
    - injection Hres as <-. reflexivity.
    - apply parseArguments_loop_step in Hres.
      destruct Hres as [[-> [value [rest' [n [-> [Hs [_ [_ Hres]]]]]]]]|[-> Hres]].
      + cbn [app]. rewrite parseArguments_loop_simulations, Hs. cbn [bind].
        apply IH; [cbn [List.length] in Hlen; lia|exact Hres].
      + cbn [app]. rewrite parseArguments_loop_verbose.
        apply IH; [lia|exact Hres]. }
  intros simulations level res. apply (H (List.length args)). lia.
Qed.

(** What accepted options amount to. *)
Lemma parseArguments_loop_accepts (args : list string) :
  forall (simulations : Z) (level : LogLevel) (n : Z) (level' : LogLevel),
    parseArguments_loop args simulations level = Ret (n, level') ->
    (INT_MIN <= simulations <= INT_MAX -> INT_MIN <= n <= INT_MAX) /\
    (level' = DEBUG <-> level = DEBUG \/ In "--verbose" args) /\
    (level <> WARN -> level' <> WARN) /\
    (~ In "--simulations" args -> n = simulations).
Proof.
  assert (H : forall (bound : nat) (args : list string),
            (List.length args <= bound)%nat ->
            forall simulations level n level',
              parseArguments_loop args simulations level = Ret (n, level') ->
              (INT_MIN <= simulations <= INT_MAX -> INT_MIN <= n <= INT_MAX) /\
              (level' = DEBUG <-> level = DEBUG \/ In "--verbose" args) /\
              (level <> WARN -> level' <> WARN) /\
              (~ In "--simulations" args -> n = simulations)).
  { induction bound as [|bound IH];
      intros [|arg rest] Hlen simulations level n level' Hres;
      cbn [List.length] in Hlen; try lia.
    - injection Hres as <- <-. cbn [In]. tauto.
    - injection Hres as <- <-. cbn [In]. tauto.
    - apply parseArguments_loop_step in Hres.
      destruct Hres as [[-> [value [rest' [m [-> [Hs [Hm [Hv Hres]]]]]]]]|[-> Hres]].
      + apply IH in Hres; [|cbn [List.length] in Hlen; lia].
        destruct Hres as [Hrange [Hlevel [Hwarn _]]].
        split; [intros _; apply Hrange; exact Hm|].
        split; [|split; [exact Hwarn|]].
        * rewrite Hlevel. cbn [In]. split.
          -- intros [H|H]; auto.
          -- intros [H|[H|[H|H]]]; auto; try discriminate H. congruence.
        * intros Hnot. exfalso. apply Hnot. now left.
      + apply IH in Hres; [|lia].
        destruct Hres as [Hrange [Hlevel [Hwarn Hsame]]].
        split; [exact Hrange|]. split; [|split].
        * split; [intros _; right; now left|intros _; apply Hlevel; now left].
        * intros _. apply Hwarn. discriminate.
        * intros Hnot. apply Hsame. intros Hin. apply Hnot. now right. }
  intros simulations level n level'. apply (H (List.length args)). lia.
Qed.

Lemma parseArguments_loop_unknown (arg : string) (rest : list string)
  (simulations : Z) (level : LogLevel) :
  arg <> "--simulations" -> arg <> "--verbose" ->
  parseArguments_loop (arg :: rest) simulations level =
  Throw (invalid_argument ("Invalid argument: " ++ arg)%string).
Proof.
  intros Hs Hv. cbn [parseArguments_loop].
  destruct (String.eqb_spec arg "--simulations") as [H|_]; [congruence|].
  destruct (String.eqb_spec arg "--verbose") as [H|_]; [congruence|].
  now destruct rest.
Qed.

Lemma parseArguments_loop_pure (args : list string) :
  forall (simulations : Z) (level : LogLevel),
    (exists res, parseArguments_loop args simulations level = Ret res) \/
    (exists e, parseArguments_loop args simulations level = Throw e).
Proof.
  assert (H : forall (bound : nat) (args : list string),
            (List.length args <= bound)%nat ->
            forall simulations level,
              (exists res, parseArguments_loop args simulations level = Ret res) \/
              (exists e, parseArguments_loop args simulations level = Throw e)).
  { induction bound as [|bound IH]; intros [|arg rest] Hlen simulations level;
      cbn [List.length] in Hlen; try lia.
    - left. now eexists.
    - left. now eexists.
    - destruct (String.eqb_spec arg "--verbose") as [->|Hv].
      { rewrite parseArguments_loop_verbose. apply IH. lia. }
      destruct (String.eqb_spec arg "--simulations") as [->|Hs].
      + destruct rest as [|value rest'].
        * right. now eexists.
        * rewrite parseArguments_loop_simulations.
          destruct (stoi_cases value) as [[n [_ Hs]]|[Hs|Hs]]; rewrite Hs; cbn [bind].
          -- apply IH. cbn [List.length] in Hlen. lia.
          -- right. now eexists.
          -- right. now eexists.
      + right. rewrite parseArguments_loop_unknown by assumption. now eexists. }
  intros simulations level. apply (H (List.length args)). lia.
Qed.

(** X9: when [parseArguments] accepts a command line, the number of
    simulations is an [int], equal to the default 10000 when no
    [--simulations] was given; the level is [DEBUG] when [--verbose] is
    among the arguments and [INFO] otherwise, never [WARN]. *)
Theorem parseArguments_accepted (argv : list string) (n : Z) (level : LogLevel) :
  parseArguments argv = Ret (n, level) ->
  INT_MIN <= n <= INT_MAX /\
  (level = DEBUG <-> In "--verbose" (tl argv)) /\
  (level = INFO <-> ~ In "--verbose" (tl argv)) /\
  (~ In "--simulations" (tl argv) -> n = 10000).
Proof.
  unfold parseArguments. intros H.
  apply parseArguments_loop_accepts in H.
  destruct H as [Hrange [Hlevel [Hwarn Hdefault]]].
  split; [apply Hrange; unfold INT_MIN, INT_MAX; lia|].
  assert (Hdebug : level = DEBUG <-> In "--verbose" (tl argv)).
  { rewrite Hlevel. split; [intros [H|H]; [discriminate H|exact H]|now right]. }
  split; [exact Hdebug|]. split; [|exact Hdefault].
  rewrite <- Hdebug. destruct level; split; try congruence.
  intros _. exfalso. now apply Hwarn.
Qed.

(** X10: after options that are accepted, the next token decides the
    error: a token other than [--simulations] and [--verbose] is an
    invalid argument, whatever follows it; so is a [--simulations] that is
    the last token; and a value on which [std::stoi] throws lets that
    exception out. *)
Theorem parseArguments_first_error
  (program : string) (args : list string) (res : Z * LogLevel) :
  parseArguments (program :: args) = Ret res ->
  (forall arg rest,
     arg <> "--simulations" -> arg <> "--verbose" ->
     parseArguments (program :: args ++ arg :: rest) =
     Throw (invalid_argument ("Invalid argument: " ++ arg)%string)) /\
  parseArguments (program :: args ++ ["--simulations"]) =
    Throw (invalid_argument "Invalid argument: --simulations") /\
  (forall value rest e,
     stoi value = Throw e ->
     parseArguments (program :: args ++ "--simulations" :: value :: rest) =
     Throw e).
Proof.
  unfold parseArguments. cbn [tl]. intros H. repeat split.
  - intros arg rest Hs Hv.
    rewrite (parseArguments_loop_app args _ _ _ _ H).
    now apply parseArguments_loop_unknown.
  - now rewrite (parseArguments_loop_app args _ _ _ _ H).
  - intros value rest e He.
    rewrite (parseArguments_loop_app args _ _ _ _ H).
    rewrite parseArguments_loop_simulations, He. reflexivity.
Qed.

(** X11: options are read from left to right and the last one wins: after
    options that are accepted with [simulations] and [level], a further
    [--simulations value] on which [std::stoi] returns [n] gives [n] and
    keeps the level, and a further [--verbose] gives [DEBUG] and keeps the
    number. *)
Theorem parseArguments_later_option_wins
  (program : string) (args : list string) (simulations : Z) (level : LogLevel) :
  parseArguments (program :: args) = Ret (simulations, level) ->
  (forall value n,
     stoi value = Ret n ->
     parseArguments (program :: args ++ ["--simulations"; value]) = Ret (n, level)) /\
  parseArguments (program :: args ++ ["--verbose"]) = Ret (simulations, DEBUG).
Proof.
  unfold parseArguments. cbn [tl]. intros H. split.
  - intros value n Hn.
    rewrite (parseArguments_loop_app args _ _ _ _ H).
    rewrite parseArguments_loop_simulations, Hn. reflexivity.
  - now rewrite (parseArguments_loop_app args _ _ _ _ H).
Qed.

Section MainExit.

Context {Gen : Type} (U : Z -> Z -> Gen -> Z * Gen).
Hypothesis U_range :
  forall a b gen, a <= b -> a <= fst (U a b gen) <= b.

(** X12: on every command line, [main] exits with [EXIT_FAILURE] exactly
    when [parseArguments] throws: then it writes the line "Error: " with
    the message of the exception and the usage line with the name of the
    program to [std::cerr], writes nothing to [std::cout] and makes no
    draw.  Otherwise it runs [simulate] with the parsed number and level,
    writes nothing to [std::cerr] and exits with [EXIT_SUCCESS]. *)
Theorem main_exit_code (program : string) (args : list string) (gen : Gen) :
  let x := run U (main (program :: args)) gen in
  (exists e,
     parseArguments (program :: args) = Throw e /\
     x = ([Stderr (Text ("Error: " ++ what_of e)%string);
           Stderr (Text ("Usage: " ++ program
                         ++ " [--simulations <number>] [--verbose]")%string)],
          Ok EXIT_FAILURE, gen)) \/
  (exists n level,
     parseArguments (program :: args) = Ret (n, level) /\
     x = (events_of (run U (simulate (mkLogger level) n) gen),
          Ok EXIT_SUCCESS,
          gen_of (run U (simulate (mkLogger level) n) gen)) /\
     stderr_of (events_of x) = []).
Proof.
  cbv zeta. unfold main.
  destruct (parseArguments_loop_pure args 10000 INFO) as [[[n level] H]|[e H]].
  - right. exists n, level.
    assert (Hparse : parseArguments (program :: args) = Ret (n, level)) by exact H.
    split; [exact Hparse|].
    destruct (parseArguments_loop_accepts _ _ _ _ _ H) as [Hn _].
    specialize (Hn ltac:(unfold INT_MIN, INT_MAX; lia)).
    rewrite Hparse. cbn [bind].
    rewrite run_try_catch.
    rewrite (run_seq U _ _ gen tt)
      by (apply (simulate_returns U U_range); lia).
    cbn [run result_of events_of gen_of fst snd]. rewrite app_nil_r.
    split; [reflexivity|].
    apply (simulate_stderr_empty U U_range). lia.
  - left. exists e.
    assert (Hparse : parseArguments (program :: args) = Throw e) by exact H.
    split; [exact Hparse|]. rewrite Hparse. reflexivity.
Qed.

End MainExit.

(** ** What printBoard shows *)

Lemma printBoard_boardDisplay (logger : Logger) (board : Board) :
  printBoard logger board = Logger_debug logger (Text (boardDisplay board)).
Proof. reflexivity. Qed.

Lemma append_assoc (s1 s2 s3 : string) :
  ((s1 ++ s2) ++ s3 = s1 ++ (s2 ++ s3))%string.
Proof. induction s1 as [|c s1 IH]; cbn; [reflexivity|now rewrite IH]. Qed.

Lemma append_empty_r (s : string) : (s ++ "" = s)%string.
Proof. induction s as [|c s IH]; cbn; [reflexivity|now rewrite IH]. Qed.

Lemma append_length (s1 s2 : string) :
  String.length (s1 ++ s2) = (String.length s1 + String.length s2)%nat.
Proof. induction s1 as [|c s1 IH]; cbn; [reflexivity|now rewrite IH]. Qed.

Lemma boardDisplay_cons (door : DoorState) (board : Board) :
  boardDisplay (door :: board) = (doorDisplay door ++ boardDisplay board)%string.
Proof.
  unfold boardDisplay. cbn [fold_left].
  change ("" ++ doorDisplay door)%string with (doorDisplay door).
  generalize (doorDisplay door) as acc.
  induction board as [|door' board IH]; intros acc; cbn [fold_left].
  - now rewrite append_empty_r.
  - rewrite IH. change ("" ++ doorDisplay door')%string with (doorDisplay door').
    rewrite (IH (doorDisplay door')). now rewrite append_assoc.
Qed.

Lemma doorDisplay_length (door : DoorState) : String.length (doorDisplay door) = 4%nat.
Proof. destruct door as [[] [] []]; reflexivity. Qed.

(** X13: the line [printBoard] builds has four characters per door, and it
    shows a board faithfully as long as no door with the prize is open:
    two such boards with the same line are equal.  A door with the prize
    is shown as "C" whether it is open or not. *)
Theorem printBoard_faithful (logger : Logger) :
  (forall board,
     String.length (boardDisplay board) = (4 * List.length board)%nat) /\
  (forall board board',
     never_both hasCar open board -> never_both hasCar open board' ->
     printBoard (mkLogger DEBUG) board = printBoard (mkLogger DEBUG) board' ->
     board = board') /\
  (forall sel, doorDisplay (mkDoorState sel true true)
               = doorDisplay (mkDoorState sel true false)) /\
  (forall board,
     printBoard logger board = Logger_debug logger (Text (boardDisplay board))).
Proof.
  split; [|split; [|split]].
  - induction board as [|door board IH]; [reflexivity|].
    rewrite boardDisplay_cons, append_length, doorDisplay_length, IH.
    cbn [List.length]. lia.
  - intros board board' Hinv Hinv' Heq.
    rewrite !printBoard_boardDisplay in Heq.
    unfold Logger_debug, Logger_log, emit in Heq. cbn in Heq.
    injection Heq as Heq.
    revert board' Hinv Hinv' Heq. unfold never_both.
    induction board as [|door board IH]; intros [|door' board'] Hinv Hinv' Heq.
    + reflexivity.
    + rewrite boardDisplay_cons in Heq.
      destruct door' as [[] [] []]; discriminate Heq.
    + rewrite boardDisplay_cons in Heq.
      destruct door as [[] [] []]; discriminate Heq.
    + rewrite !boardDisplay_cons in Heq.
      cbn [forallb] in Hinv, Hinv'.
      apply andb_true_iff in Hinv. destruct Hinv as [Hdoor Hinv].
      apply andb_true_iff in Hinv'. destruct Hinv' as [Hdoor' Hinv'].
      destruct door as [[] [] []], door' as [[] [] []];
        cbn in Hdoor, Hdoor'; try discriminate Hdoor; try discriminate Hdoor';
        cbn in Heq; try discriminate Heq;
        injection Heq as Heq; f_equal; now apply IH.
  - intros []; reflexivity.
  - intros board. reflexivity.
Qed.

(** ** Mean and variance of the win count *)

Local Open Scope Q_scope.

(** X14: the win count of a batch of [n] trials ([n] a non-negative [int])
    has mean [n / 3] under the stay strategy and [2 n / 3] under the switch
    strategy, and variance [2 n / 9] under both, when every draw is uniform
    on its range and independent of the earlier ones. *)
Theorem batch_win_count_mean_variance (logger : Logger) (n : Z) (b : bool) :
  (0 <= n <= INT_MAX)%Z ->
  let mean := inject_Z n * win_probability b in
  expect (runSimulation_loop logger n b 0 0) winCount_of == mean /\
  expect (runSimulation_loop logger n b 0 0)
         (fun res => (winCount_of res - mean) * (winCount_of res - mean))
  == (2 # 9) * inject_Z n.
Proof.
  intros Hn. cbv zeta.
  destruct (loop_moments logger n b ltac:(lia) (Z.to_nat n) 0%Z 0%Z)
    as [Hmean Hvar]; try (unfold INT_MIN; lia).
  cbv zeta in Hmean, Hvar. rewrite Z2Nat.id in Hmean, Hvar by lia.
  change (inject_Z 0) with 0 in Hmean, Hvar.
  split.
  - rewrite (expect_ext _ winCount_of
               (fun res => (winCount_of res - (0 + inject_Z n * win_probability b))
                           + inject_Z n * win_probability b))
      by (intros res; ring).
    rewrite expect_plus, expect_const, Hmean. ring.
  - rewrite (expect_ext _ _
               (fun res => (winCount_of res - (0 + inject_Z n * win_probability b))
                           * (winCount_of res - (0 + inject_Z n * win_probability b))))
      by (intros res; ring).
    rewrite Hvar. destruct b; cbn [win_probability]; ring.
Qed.

Local Close Scope Q_scope.

(* ===================================================================== *)
(** * The further properties on the linear congruential generator *)
(* ===================================================================== *)

Lemma strategies_are_complementary_witness :
  (forall a b gen, a <= b -> a <= fst (lcg_uniform a b gen) <= b) /\
  let carIndex := fst (lcg_uniform 0 2 42) in
  let playerChoiceIndex := fst (lcg_uniform 0 2 (snd (lcg_uniform 0 2 42))) in
  result_of (run lcg_uniform (simulateSingleGame (mkLogger INFO) false) 42)
    = Ok (playerChoiceIndex =? carIndex) /\
  result_of (run lcg_uniform (simulateSingleGame (mkLogger DEBUG) true) 42)
    = Ok (negb (playerChoiceIndex =? carIndex)).
Proof.
  split; [exact lcg_uniform_range|].
  exact (strategies_are_complementary lcg_uniform lcg_uniform_range
           (mkLogger INFO) (mkLogger DEBUG) 42).
Defined.

Lemma trial_draw_ranges_witness :
  (forall a b gen, a <= b -> a <= fst (lcg_uniform a b gen) <= b) /\
  let carIndex := fst (lcg_uniform 0 2 42) in
  let playerChoiceIndex := fst (lcg_uniform 0 2 (snd (lcg_uniform 0 2 42))) in
  map fst (draw_log
             (events_of (run lcg_uniform (simulateSingleGame (mkLogger INFO) true) 42)))
  = 2 :: 2 :: (if playerChoiceIndex =? carIndex then 1 else 0)
      :: (if true then [0] else []).
Proof.
  split; [exact lcg_uniform_range|].
  exact (trial_draw_ranges lcg_uniform lcg_uniform_range (mkLogger INFO) true 42).
Defined.

Lemma trial_quiet_unless_debug_witness :
  (forall a b gen, a <= b -> a <= fst (lcg_uniform a b gen) <= b) /\
  logLevel (mkLogger INFO) <> DEBUG /\
  stdout_of (events_of (run lcg_uniform (simulateSingleGame (mkLogger INFO) true) 42))
  = [].
Proof.
  split; [exact lcg_uniform_range|].
  split; [discriminate|].
  apply (trial_quiet_unless_debug lcg_uniform lcg_uniform_range (mkLogger INFO) true 42).
  discriminate.
Defined.


Lemma trial_unaffected_by_logger_witness :
  (forall a b gen, a <= b -> a <= fst (lcg_uniform a b gen) <= b) /\
  let x := run lcg_uniform (simulateSingleGame (mkLogger DEBUG) true) 42 in
  let x' := run lcg_uniform (simulateSingleGame (mkLogger INFO) true) 42 in
  without_stdout (events_of x) = without_stdout (events_of x') /\
  result_of x = result_of x' /\
  gen_of x = gen_of x'.
Proof.
  split; [exact lcg_uniform_range|].
  exact (trial_unaffected_by_logger lcg_uniform lcg_uniform_range
           (mkLogger DEBUG) (mkLogger INFO) true 42).
Defined.

Lemma batch_unaffected_by_logger_witness :
  (forall a b gen, a <= b -> a <= fst (lcg_uniform a b gen) <= b) /\
  5 <= INT_MAX /\
  exists winCount trialEvents trialEvents' gen',
    let line :=
      summary 5 winCount (double_div (double_of_int winCount) (double_of_int 5)) in
    run lcg_uniform (runSimulation (mkLogger DEBUG) 5 true) 42 =
      (trialEvents ++ events_of (run lcg_uniform (Logger_info (mkLogger DEBUG) line) gen'),
       Ok tt, gen') /\
    run lcg_uniform (runSimulation (mkLogger INFO) 5 true) 42 =
      (trialEvents' ++ events_of (run lcg_uniform (Logger_info (mkLogger INFO) line) gen'),
       Ok tt, gen') /\
    without_stdout trialEvents = without_stdout trialEvents'.
Proof.
  split; [exact lcg_uniform_range|].
  split; [unfold INT_MAX; lia|].
  apply (batch_unaffected_by_logger lcg_uniform lcg_uniform_range
           (mkLogger DEBUG) (mkLogger INFO) 5 true 42).
  unfold INT_MAX; lia.
Defined.

Lemma simulate_line_count_witness :
  (forall a b gen, a <= b -> a <= fst (lcg_uniform a b gen) <= b) /\
  500 <= INT_MAX /\
  Z.of_nat (List.length
              (stdout_of (events_of (run lcg_uniform (simulate (mkLogger DEBUG) 500) 42))))
  = 17 * Z.max 0 500 + 4.
Proof.
  split; [exact lcg_uniform_range|].
  split; [unfold INT_MAX; lia|].
  refine (proj1 (simulate_line_count lcg_uniform lcg_uniform_range
                   (mkLogger DEBUG) 500 42 _)).
  unfold INT_MAX; lia.
Defined.

Lemma simulate_draw_count_witness :
  (forall a b gen, a <= b -> a <= fst (lcg_uniform a b gen) <= b) /\
  500 <= INT_MAX /\
  Z.of_nat (List.length
              (draw_log (events_of (run lcg_uniform (simulate (mkLogger INFO) 500) 42))))
  = 7 * Z.max 0 500.
Proof.
  split; [exact lcg_uniform_range|].
  split; [unfold INT_MAX; lia|].
  apply (simulate_draw_count lcg_uniform lcg_uniform_range (mkLogger INFO) 500 42).
  unfold INT_MAX; lia.
Defined.

Lemma parseArguments_accepted_witness :
  parseArguments ["simulator"; "--verbose"; "--simulations"; "500"] = Ret (500, DEBUG) /\
  INT_MIN <= 500 <= INT_MAX /\
  (DEBUG = DEBUG <->
   In "--verbose" (tl ["simulator"; "--verbose"; "--simulations"; "500"])).
Proof.
  split; [reflexivity|].
  pose proof (parseArguments_accepted
                ["simulator"; "--verbose"; "--simulations"; "500"] 500 DEBUG
                eq_refl) as H.
  split; [exact (proj1 H)|exact (proj1 (proj2 H))].
Defined.

Lemma parseArguments_first_error_witness :
  parseArguments ["simulator"; "--simulations"; "500"] = Ret (500, INFO) /\
  parseArguments (["simulator"; "--simulations"; "500"] ++ ["--simulations"]) =
    Throw (invalid_argument "Invalid argument: --simulations").
Proof.
  split; [reflexivity|].
  exact (proj1 (proj2 (parseArguments_first_error
                         "simulator" ["--simulations"; "500"] (500, INFO) eq_refl))).
Defined.

Lemma parseArguments_later_option_wins_witness :
  parseArguments ["simulator"; "--simulations"; "500"] = Ret (500, INFO) /\
  parseArguments (["simulator"; "--simulations"; "500"] ++ ["--verbose"]) =
    Ret (500, DEBUG).
Proof.
  split; [reflexivity|].
  exact (proj2 (parseArguments_later_option_wins
                  "simulator" ["--simulations"; "500"] 500 INFO eq_refl)).
Defined.

Lemma main_exit_code_witness :
  (forall a b gen, a <= b -> a <= fst (lcg_uniform a b gen) <= b) /\
  let x := run lcg_uniform (main ("simulator" :: ["--bogus"])) 42 in
  (exists e,
     parseArguments ("simulator" :: ["--bogus"]) = Throw e /\
     x = ([Stderr (Text ("Error: " ++ what_of e)%string);
           Stderr (Text ("Usage: " ++ "simulator"
                         ++ " [--simulations <number>] [--verbose]")%string)],
          Ok EXIT_FAILURE, 42)) \/
  (exists n level,
     parseArguments ("simulator" :: ["--bogus"]) = Ret (n, level) /\
     x = (events_of (run lcg_uniform (simulate (mkLogger level) n) 42),
          Ok EXIT_SUCCESS,
          gen_of (run lcg_uniform (simulate (mkLogger level) n) 42)) /\
     stderr_of (events_of x) = []).
Proof.
  split; [exact lcg_uniform_range|].
  exact (main_exit_code lcg_uniform lcg_uniform_range "simulator" ["--bogus"] 42).
Defined.

Lemma printBoard_faithful_witness :
  never_both hasCar open pickedPrizeBoard /\
  printBoard (mkLogger DEBUG) pickedPrizeBoard
    = printBoard (mkLogger DEBUG) pickedPrizeBoard /\
  pickedPrizeBoard = pickedPrizeBoard.
Proof.
  split; [reflexivity|]. split; [reflexivity|].
  exact (proj1 (proj2 (printBoard_faithful (mkLogger DEBUG)))
           pickedPrizeBoard pickedPrizeBoard eq_refl eq_refl eq_refl).
Defined.

Lemma batch_win_count_mean_variance_witness :
  (0 <= 300 <= INT_MAX) /\
  (expect (runSimulation_loop (mkLogger INFO) 300 true 0 0) winCount_of
   == inject_Z 300 * win_probability true)%Q.
Proof.
  split; [unfold INT_MAX; lia|].
  refine (proj1 (batch_win_count_mean_variance (mkLogger INFO) 300 true _)).
  unfold INT_MAX; lia.
Defined.
